(** * Color transfer between images (color_transfer.ipynb)

    A shallow embedding of the notebook's two functions, [color_transfer]
    and [image_stats], together with the numpy / OpenCV operations they
    call, and the properties of the written specification checked
    against them.

    - Pixel arithmetic is IEEE-754 binary32 ("float32"), taken from the
      Standard Library's executable [SpecFloat] (24-bit significand,
      round to nearest even, signed zeros, infinities, NaN).
    - numpy arrays are mutable objects: they live in a heap and are
      passed by reference.  [l -= m] and [l += m] update the array in
      place; every other operation allocates a new array.
    - Python exceptions are an error result; the heap survives them.
    - OpenCV's colour conversion itself ([cv2.cvtColor]'s per-pixel
      colour mathematics) is not part of the notebook: it is a parameter
      of the development, applied pixel by pixel.
    - [show_image] and the notebook's last cell are embedded as well:
      the size arithmetic of [show_image] is Python's, in binary64
      (53-bit significand); the windows of [cv2.imshow] are part of the
      state; the pixels [cv2.resize] interpolates and the key
      [cv2.waitKey] reports are parameters. *)

From Stdlib Require Import ZArith List Bool Lia.
From Stdlib Require Import Strings.Byte.
From Stdlib Require Strings.String.
From Stdlib Require Import SpecFloat.
From stdpp Require Import base list.
Import ListNotations.
Import Stdlib.Strings.String.StringSyntax.
Delimit Scope string_scope with string.

Local Open Scope Z_scope.

(* ------------------------------------------------------------------ *)
(** ** binary32 arithmetic *)

Definition float32 : Type := spec_float.

Definition prec32 : Z := 24.
Definition emax32 : Z := 128.

Definition f32_add : float32 -> float32 -> float32 := SFadd prec32 emax32.
Definition f32_sub : float32 -> float32 -> float32 := SFsub prec32 emax32.
Definition f32_mul : float32 -> float32 -> float32 := SFmul prec32 emax32.
Definition f32_div : float32 -> float32 -> float32 := SFdiv prec32 emax32.
Definition f32_sqrt : float32 -> float32 := SFsqrt prec32 emax32.

(** [a < b], [a > b] and [a == b] of C and Python: false as soon as one
    side is NaN. *)
Definition f32_ltb (a b : float32) : bool := SFltb a b.
Definition f32_gtb (a b : float32) : bool := SFltb b a.

(** The float32 nearest to an integer (exact up to 2^24). *)
Definition f32_of_Z (z : Z) : float32 := binary_normalize prec32 emax32 z 0 false.

Definition f32_zero : float32 := S754_zero false.

Definition f32_is_nan (x : float32) : bool :=
  match x with S754_nan => true | _ => false end.

(** Zero or a finite non-zero number: neither NaN nor an infinity. *)
Definition f32_is_finite (x : float32) : bool :=
  match x with S754_zero _ | S754_finite _ _ _ => true | _ => false end.

Definition f32_is_zero (x : float32) : bool :=
  match x with S754_zero _ => true | _ => false end.

(** A finite number other than zero. *)
Definition f32_is_nonzero (x : float32) : bool :=
  match x with S754_finite _ _ _ => true | _ => false end.


(** The integer part of a finite float, rounding toward zero (what a C
    cast to an integer type computes); [None] on NaN and infinities. *)
Definition f32_trunc (x : float32) : option Z :=
  match x with
  | S754_zero _ => Some 0
  | S754_finite s m e => Some (cond_Zopp s (Z.shiftl (Zpos m) e))
  | S754_infinity _ | S754_nan => None
  end.

(* ------------------------------------------------------------------ *)
(** ** uint8 *)

Definition Z_of_byte (b : byte) : Z := Z.of_N (Byte.to_N b).

(** The low eight bits of an integer, as a uint8. *)
Definition byte_of_Z (z : Z) : byte :=
  match Byte.of_N (Z.to_N (z mod 256)) with
  | Some b => b
  | None => x00
  end.

Definition f32_of_byte (b : byte) : float32 := f32_of_Z (Z_of_byte b).

(* ------------------------------------------------------------------ *)
(** ** numpy reductions and elementwise operations on one channel *)

(** [x.sum()]: float32 accumulation.  numpy adds the elements in
    blocks (pairwise); the model adds them left to right.  Both orders
    give the same float whenever no partial sum is rounded. *)
Definition np_sum (xs : list float32) : float32 := fold_left f32_add xs f32_zero.

(** [x.mean()]: the sum divided by the number of elements, in float32
    (a count below 2^24 is itself a float32).  The mean of no elements
    is 0/0 = NaN: numpy warns, it does not raise. *)
Definition np_mean (xs : list float32) : float32 :=
  f32_div (np_sum xs) (f32_of_Z (Z.of_nat (length xs))).

(** [x.std()] with numpy's default [ddof=0]:
    [sqrt(mean(abs(x - x.mean())**2))]. *)
Definition np_std (xs : list float32) : float32 :=
  let m := np_mean xs in
  f32_sqrt (np_mean (map (fun x => let d := f32_sub x m in f32_mul d d) xs)).

(** numpy's clip loop on floats: [_NPY_MIN(_NPY_MAX(x, lo), hi)], where
    both macros return their first argument when it is NaN. *)
Definition npy_max (a b : float32) : float32 :=
  if f32_is_nan a then a else if f32_gtb a b then a else b.
Definition npy_min (a b : float32) : float32 :=
  if f32_is_nan a then a else if f32_ltb a b then a else b.
Definition npy_clip (x lo hi : float32) : float32 := npy_min (npy_max x lo) hi.

(* ------------------------------------------------------------------ *)
(** ** Arrays, the heap, exceptions *)

Definition pixel8 : Type := byte * byte * byte.
Definition pixel32 : Type := float32 * float32 * float32.

(** The arrays the notebook handles: H x W x 3 uint8 images, H x W x 3
    float32 images and H x W float32 channel planes, each with its
    shape and its elements in row-major order. *)
Inductive ndarray : Type :=
| Img8 (rows cols : nat) (data : list pixel8)
| Img32 (rows cols : nat) (data : list pixel32)
| Chan32 (rows cols : nat) (data : list float32).

(** [a.size == 0]: no pixels, that is, zero rows or zero columns. *)
Definition is_empty (rows cols : nat) : bool := Nat.eqb (rows * cols) 0.

(** References are indices into the heap; a new array goes to the end. *)
Abbreviation loc := nat (only parsing).
Abbreviation heap := (list ndarray) (only parsing).

Inductive exn : Type :=
| cv2_error     (* an OpenCV assertion failed *)
| ValueError    (* "not enough values to unpack" *)
| TypeError.    (* an array of a kind the operation is not modelled on,
                   or a dangling reference *)

Inductive result (A : Type) : Type :=
| Ok (a : A)
| Raise (e : exn).
Arguments Ok {A} a.
Arguments Raise {A} e.

(** Computations: a heap in, a value or an exception and a heap out. *)
Definition M (A : Type) : Type := heap -> result A * heap.

Definition ret {A} (a : A) : M A := fun h => (Ok a, h).
Definition raise {A} (e : exn) : M A := fun h => (Raise e, h).
Definition bind {A B} (m : M A) (f : A -> M B) : M B :=
  fun h => match m h with
           | (Ok a, h') => f a h'
           | (Raise e, h') => (Raise e, h')
           end.

Notation "x <- m ;; k" := (bind m (fun x => k))
  (at level 100, m at next level, right associativity).
Notation "m ;;; k" := (bind m (fun _ => k))
  (at level 100, right associativity).

Definition alloc (a : ndarray) : M loc := fun h => (Ok (length h), h ++ [a]).
Definition load (l : loc) : M ndarray :=
  fun h => match h !! l with
           | Some a => (Ok a, h)
           | None => (Raise TypeError, h)
           end.
Definition store (l : loc) (a : ndarray) : M unit := fun h => (Ok tt, <[l := a]> h).

(** A Python tuple assignment [(l, a, b) = xs]. *)
Definition unpack3 {A} (xs : list A) : M (A * A * A) :=
  match xs with
  | [x; y; z] => ret (x, y, z)
  | _ => raise ValueError
  end.

Fixpoint zip3 {A B C} (xs : list A) (ys : list B) (zs : list C) : list (A * B * C) :=
  match xs, ys, zs with
  | x :: xs', y :: ys', z :: zs' => (x, y, z) :: zip3 xs' ys' zs'
  | _, _, _ => []
  end.

(* ------------------------------------------------------------------ *)
(** ** The OpenCV and numpy calls of the notebook *)

Definition pixel_to_float32 (p : pixel8) : pixel32 :=
  let '(x, y, z) := p in (f32_of_byte x, f32_of_byte y, f32_of_byte z).

(** The two conversion codes the notebook passes to [cv2.cvtColor]. *)
Inductive color_code : Type := COLOR_BGR2LAB | COLOR_LAB2BGR.

Section Notebook.

(** OpenCV's conversion of one 8-bit pixel under a conversion code. *)
Variable cvt_pixel : color_code -> pixel8 -> pixel8.

(** What the platform's float-to-uint8 conversion returns for NaN and
    the infinities (C leaves it undefined; numpy passes it through). *)
Variable nan_cast : byte.

(** [cv2.cvtColor(src, code)] on an 8-bit 3-channel image: a new image
    of the same shape.  OpenCV asserts that the input is not empty. *)
Definition cvtColor (src : loc) (code : color_code) : M loc :=
  a <- load src ;;
  match a with
  | Img8 r c d =>
      if is_empty r c then raise cv2_error
      else alloc (Img8 r c (map (cvt_pixel code) d))
  | _ => raise TypeError
  end.

(** The C conversion float -> uint8 of one element: truncation toward
    zero, then the low eight bits. *)
Definition f32_to_uint8 (x : float32) : byte :=
  match f32_trunc x with
  | Some z => byte_of_Z z
  | None => nan_cast
  end.

Definition pixel_to_uint8 (p : pixel32) : pixel8 :=
  let '(x, y, z) := p in (f32_to_uint8 x, f32_to_uint8 y, f32_to_uint8 z).

(** [a.astype("float32")]: always a new array; every uint8 value is a
    float32. *)
Definition astype_float32 (src : loc) : M loc :=
  a <- load src ;;
  match a with
  | Img8 r c d => alloc (Img32 r c (map pixel_to_float32 d))
  | Img32 r c d => alloc (Img32 r c d)
  | Chan32 r c d => alloc (Chan32 r c d)
  end.

(** [a.astype("uint8")]: always a new array. *)
Definition astype_uint8 (src : loc) : M loc :=
  a <- load src ;;
  match a with
  | Img32 r c d => alloc (Img8 r c (map pixel_to_uint8 d))
  | Img8 r c d => alloc (Img8 r c d)
  | Chan32 _ _ _ => raise TypeError
  end.

(** [cv2.split(m)]: one new plane per channel; OpenCV returns no plane
    at all for an empty array. *)
Definition split (m : loc) : M (list loc) :=
  a <- load m ;;
  match a with
  | Img32 r c d =>
      if is_empty r c then ret []
      else
        l0 <- alloc (Chan32 r c (map (fun p => fst (fst p)) d)) ;;
        l1 <- alloc (Chan32 r c (map (fun p => snd (fst p)) d)) ;;
        l2 <- alloc (Chan32 r c (map (fun p => snd p) d)) ;;
        ret [l0; l1; l2]
  | Chan32 r c d =>
      if is_empty r c then ret []
      else l0 <- alloc (Chan32 r c d) ;; ret [l0]
  | Img8 _ _ _ => raise TypeError
  end.

(** [cv2.merge([l, a, b])]: a new 3-channel image; the planes must
    agree in shape. *)
Definition merge (l a b : loc) : M loc :=
  x <- load l ;;
  y <- load a ;;
  z <- load b ;;
  match x, y, z with
  | Chan32 r c dl, Chan32 r1 c1 da, Chan32 r2 c2 db =>
      if Nat.eqb r r1 && Nat.eqb c c1 && Nat.eqb r r2 && Nat.eqb c c2
      then alloc (Img32 r c (zip3 dl da db))
      else raise cv2_error
  | _, _, _ => raise TypeError
  end.

(** [x.mean()] and [x.std()] of a channel plane: numpy scalars, no
    effect on the heap. *)
Definition mean (x : loc) : M float32 :=
  a <- load x ;;
  match a with
  | Chan32 _ _ d => ret (np_mean d)
  | _ => raise TypeError
  end.

Definition std (x : loc) : M float32 :=
  a <- load x ;;
  match a with
  | Chan32 _ _ d => ret (np_std d)
  | _ => raise TypeError
  end.

(** [x -= s] and [x += s] with a scalar: the array [x] is updated in
    place. *)
Definition isub (x : loc) (s : float32) : M unit :=
  a <- load x ;;
  match a with
  | Chan32 r c d => store x (Chan32 r c (map (fun v => f32_sub v s) d))
  | _ => raise TypeError
  end.

Definition iadd (x : loc) (s : float32) : M unit :=
  a <- load x ;;
  match a with
  | Chan32 r c d => store x (Chan32 r c (map (fun v => f32_add v s) d))
  | _ => raise TypeError
  end.

(** [s * x] with a scalar on the left: a new array. *)
Definition smul (s : float32) (x : loc) : M loc :=
  a <- load x ;;
  match a with
  | Chan32 r c d => alloc (Chan32 r c (map (fun v => f32_mul s v) d))
  | _ => raise TypeError
  end.

(** [np.clip(x, lo, hi)] with integer bounds: a new array. *)
Definition clip (x : loc) (lo hi : Z) : M loc :=
  a <- load x ;;
  match a with
  | Chan32 r c d =>
      alloc (Chan32 r c (map (fun v => npy_clip v (f32_of_Z lo) (f32_of_Z hi)) d))
  | _ => raise TypeError
  end.

(* ---------------------------------------------------------------- *)
(** ** The notebook's functions *)

(** [image_stats(image)] *)
Definition image_stats (image : loc) : M (float32 * float32 * float32 * float32 * float32 * float32) :=
  (* compute mean and standard deviation of each channel *)
  planes <- split image ;;
  lab <- unpack3 planes ;;
  let '(l, a, b) := lab in
  lMean <- mean l ;; lStd <- std l ;;
  aMean <- mean a ;; aStd <- std a ;;
  bMean <- mean b ;; bStd <- std b ;;
  ret (lMean, lStd, aMean, aStd, bMean, bStd).

(** [color_transfer(source, target)] *)
Definition color_transfer (source target : loc) : M loc :=
  (* convert color space from BGR to L*a*b color space *)
  source <- (s <- cvtColor source COLOR_BGR2LAB ;; astype_float32 s) ;;
  target <- (t <- cvtColor target COLOR_BGR2LAB ;; astype_float32 t) ;;
  (* compute color stats for both images *)
  statsSrc <- image_stats source ;;
  let '(lMeanSrc, lStdSrc, aMeanSrc, aStdSrc, bMeanSrc, bStdSrc) := statsSrc in
  statsTar <- image_stats target ;;
  let '(lMeanTar, lStdTar, aMeanTar, aStdTar, bMeanTar, bStdTar) := statsTar in
  (* split the color space *)
  planes <- split target ;;
  lab <- unpack3 planes ;;
  let '(l, a, b) := lab in
  (* subtract the means from target image *)
  isub l lMeanTar ;;;
  isub a aMeanTar ;;;
  isub b bMeanTar ;;;
  (* scale by the standard deviation *)
  l <- smul (f32_div lStdTar lStdSrc) l ;;
  a <- smul (f32_div aStdTar aStdSrc) a ;;
  b <- smul (f32_div bStdTar bStdSrc) b ;;
  (* add the source mean *)
  iadd l lMeanSrc ;;;
  iadd a aMeanSrc ;;;
  iadd b bMeanSrc ;;;
  (* clipping the pixels between 0 and 255 *)
  l <- clip l 0 255 ;;
  a <- clip a 0 255 ;;
  b <- clip b 0 255 ;;
  (* merge the channels *)
  transfer <- merge l a b ;;
  (* converting back to BGR *)
  transfer <- (t <- astype_uint8 transfer ;; cvtColor t COLOR_LAB2BGR) ;;
  ret transfer.

End Notebook.

(* ------------------------------------------------------------------ *)
(** ** What one call of [color_transfer] leaves on the heap *)

(** The three planes of a float32 image, as [cv2.split] extracts them. *)
Definition chan0 (d : list pixel32) : list float32 := map (fun p => fst (fst p)) d.
Definition chan1 (d : list pixel32) : list float32 := map (fun p => snd (fst p)) d.
Definition chan2 (d : list pixel32) : list float32 := map (fun p => snd p) d.


(** The scale factor the notebook multiplies a centred plane with,
    from the two standard deviations as it passes them. *)
Definition scale_factor (stdTar stdSrc : float32) : float32 := f32_div stdTar stdSrc.

(** One value [v] of a target plane [tar] after the notebook's four
    steps (subtract, scale, add, clip), given the matching plane [src]
    of the source. *)
Definition transfer_value (src tar : list float32) (v : float32) : float32 :=
  npy_clip
    (f32_add (f32_mul (scale_factor (np_std tar) (np_std src)) (f32_sub v (np_mean tar)))
             (np_mean src))
    (f32_of_Z 0) (f32_of_Z 255).

(** One plane of the target [tar] after each of the notebook's steps,
    given the matching plane [src] of the source. *)
Definition centred (tar : list float32) : list float32 :=
  map (fun v => f32_sub v (np_mean tar)) tar.
Definition scaled (src tar : list float32) : list float32 :=
  map (fun v => f32_mul (scale_factor (np_std tar) (np_std src)) v) (centred tar).
Definition remapped (src tar : list float32) : list float32 :=
  map (fun v => f32_add v (np_mean src)) (scaled src tar).
Definition clipped (src tar : list float32) : list float32 :=
  map (fun v => npy_clip v (f32_of_Z 0) (f32_of_Z 255)) (remapped src tar).

Section Trace.

Variable cvt_pixel : color_code -> pixel8 -> pixel8.
Variable nan_cast : byte.

(** An 8-bit BGR image converted to L*a*b* and then to float32. *)
Definition lab32 (d : list pixel8) : list pixel32 :=
  map pixel_to_float32 (map (cvt_pixel COLOR_BGR2LAB) d).

(** The clipped float32 L*a*b* image handed to the final conversion. *)
Definition merged (ds dt : list pixel8) : list pixel32 :=
  let S := lab32 ds in
  let T := lab32 dt in
  zip3 (clipped (chan0 S) (chan0 T))
       (clipped (chan1 S) (chan1 T))
       (clipped (chan2 S) (chan2 T)).

(** The pixels of the returned image. *)
Definition transferred (ds dt : list pixel8) : list pixel8 :=
  map (cvt_pixel COLOR_LAB2BGR) (map (pixel_to_uint8 nan_cast) (merged ds dt)).

(** The first two arrays a call allocates: the L*a*b* source, 8-bit
    and float32. *)
Definition trace_source (rs cs : nat) (ds : list pixel8) : list ndarray :=
  [ Img8 rs cs (map (cvt_pixel COLOR_BGR2LAB) ds); Img32 rs cs (lab32 ds) ].

(** All 22 arrays a successful call allocates, in allocation order and
    in their final state, for a source of shape [rs] x [cs] with
    pixels [ds] and a target of shape [rt] x [ct] with pixels [dt].
    The call returns the last one. *)
Definition trace (rs cs : nat) (ds : list pixel8) (rt ct : nat) (dt : list pixel8)
  : list ndarray :=
  let S := lab32 ds in
  let T := lab32 dt in
  trace_source rs cs ds ++
  [ Img8 rt ct (map (cvt_pixel COLOR_BGR2LAB) dt); Img32 rt ct T;
    (* image_stats(source), image_stats(target) *)
    Chan32 rs cs (chan0 S); Chan32 rs cs (chan1 S); Chan32 rs cs (chan2 S);
    Chan32 rt ct (chan0 T); Chan32 rt ct (chan1 T); Chan32 rt ct (chan2 T);
    (* cv2.split(target), then  -= mean  in place *)
    Chan32 rt ct (centred (chan0 T));
    Chan32 rt ct (centred (chan1 T));
    Chan32 rt ct (centred (chan2 T));
    (* the scaled planes, then  += mean  in place *)
    Chan32 rt ct (remapped (chan0 S) (chan0 T));
    Chan32 rt ct (remapped (chan1 S) (chan1 T));
    Chan32 rt ct (remapped (chan2 S) (chan2 T));
    (* np.clip *)
    Chan32 rt ct (clipped (chan0 S) (chan0 T));
    Chan32 rt ct (clipped (chan1 S) (chan1 T));
    Chan32 rt ct (clipped (chan2 S) (chan2 T));
    (* cv2.merge, astype("uint8"), cv2.cvtColor *)
    Img32 rt ct (merged ds dt);
    Img8 rt ct (map (pixel_to_uint8 nan_cast) (merged ds dt));
    Img8 rt ct (transferred ds dt) ].

(** The array a call returns, if it returns one. *)
Definition transfer_result (h : heap) (source target : loc) : option ndarray :=
  match color_transfer cvt_pixel nan_cast source target h with
  | (Ok r, h') => h' !! r
  | (Raise _, _) => None
  end.

End Trace.

(** Component [c] (0..2) of the tuple [image_stats] returns: the mean
    and the standard deviation of channel [c]. *)
Definition stats_channel (c : nat)
    (s : float32 * float32 * float32 * float32 * float32 * float32) : float32 * float32 :=
  let '(lMean, lStd, aMean, aStd, bMean, bStd) := s in
  match c with
  | O => (lMean, lStd)
  | S O => (aMean, aStd)
  | _ => (bMean, bStd)
  end.

(* ------------------------------------------------------------------ *)
(** ** The specification's formulas, for comparison *)

(** The remap formula as the specification words it:
    [(v - targetMean) * (sourceStd / targetStd) + sourceMean]. *)
Definition spec_remap (targetMean targetStd sourceMean sourceStd v : float32) : float32 :=
  f32_add (f32_mul (f32_sub v targetMean) (f32_div sourceStd targetStd)) sourceMean.





(* ------------------------------------------------------------------ *)
(** ** Concrete images used below *)

Definition bgr (r g b : Z) : pixel8 := (byte_of_Z b, byte_of_Z g, byte_of_Z r).

(** 2 x 2, every pixel RGB (100,100,100). *)
Definition gray_2x2 : ndarray := Img8 2 2 (repeat (bgr 100 100 100) 4).
(** 2 x 2, every pixel RGB (200,50,50). *)
Definition red_2x2 : ndarray := Img8 2 2 (repeat (bgr 200 50 50) 4).
Definition white_1x1 : ndarray := Img8 1 1 [bgr 255 255 255].

(** A stand-in colour conversion for running the notebook on concrete
    heaps: it leaves every pixel as it is. *)
Definition cvt_id (code : color_code) (p : pixel8) : pixel8 := p.

(** A heap with a 1 x 2 source (reference 0) and a 1 x 2 target
    (reference 1), pixels given as their three channel values.  Under
    [cvt_id] the first channel is L: [1, 3] in the source and [0, 4] in
    the target. *)
Definition lab_pair : heap :=
  [ Img8 1 2 [(byte_of_Z 1, byte_of_Z 10, byte_of_Z 20); (byte_of_Z 3, byte_of_Z 30, byte_of_Z 40)];
    Img8 1 2 [(byte_of_Z 0, byte_of_Z 50, byte_of_Z 60); (byte_of_Z 4, byte_of_Z 70, byte_of_Z 61)] ].

(* ------------------------------------------------------------------ *)
(** ** Integers held exactly in float32 *)

(** The number of binary digits of a positive integer. *)
Definition zdigits (p : positive) : Z := Zpos (digits2_pos p).

(** [p * 2^n]. *)
Definition shl (n : nat) (p : positive) : positive := Nat.iter n xO p.

(** The binary32 representation of a positive integer below 2^24: the
    integer shifted left to a 24-bit significand, with the exponent
    that undoes the shift. *)
Definition f32_canon (p : positive) : float32 :=
  S754_finite false (shl (Z.to_nat (24 - zdigits p)) p) (zdigits p - 24).

(* ------------------------------------------------------------------ *)
(** ** The transfer of an image onto itself *)



(* ------------------------------------------------------------------ *)
(** ** Signs *)

(** The sign bit of a float; NaN is given none. *)
Definition f32_signbit (x : float32) : bool :=
  match x with
  | S754_zero s | S754_infinity s | S754_finite s _ _ => s
  | S754_nan => false
  end.



(* ------------------------------------------------------------------ *)
(** ** Rounding: what a right shift keeps of a quotient *)

(** Where a remainder [k] out of [d] lies: nowhere (the quotient is
    exact), below the half, at the half or above it. *)
Definition located (k d : Z) : location :=
  if k =? 0 then loc_Exact else loc_Inexact (2 * k ?= d).

(** The shift record [r] holds the integer part of [N / D] and the
    position of the remainder. *)
Definition represents (r : shr_record) (N D : Z) : Prop :=
  shr_m r = N / D /\ loc_of_shr_record r = located (N mod D) D.

(* ------------------------------------------------------------------ *)
(** ** Python numbers *)

(** A Python float is an IEEE-754 binary64. *)
Definition float64 : Type := spec_float.

Definition prec64 : Z := 53.
Definition emax64 : Z := 1024.

Definition f64_mul : float64 -> float64 -> float64 := SFmul prec64 emax64.
Definition f64_div : float64 -> float64 -> float64 := SFdiv prec64 emax64.

(** The float nearest to an integer (exact up to 2^53). *)
Definition f64_of_Z (z : Z) : float64 := binary_normalize prec64 emax64 z 0 false.

(** The binary64 representation of a positive integer below 2^53. *)
Definition f64_canon (p : positive) : float64 :=
  S754_finite false (shl (Z.to_nat (53 - zdigits p)) p) (zdigits p - 53).

(* ------------------------------------------------------------------ *)
(** ** The display: windows, and the exceptions of plain Python *)

(** The exceptions the display code can end with: those of the calls
    above, and two of Python's arithmetic. *)
Inductive py_exn : Type :=
| Exn (e : exn)
| ZeroDivisionError   (* float division by zero *)
| OverflowError.      (* an int too large for a float or for a C int,
                         int() of an infinity *)

Inductive outcome (A : Type) : Type :=
| Done (a : A)
| Fail (e : py_exn).
Arguments Done {A} a.
Arguments Fail {A} e.

(** The arrays, and the HighGUI windows: each window has a name and
    shows the image last given to it. *)
Record world : Type := World {
  arrays : list ndarray;
  windows : list (String.string * ndarray) }.

Definition W (A : Type) : Type := world -> outcome A * world.

Definition retW {A} (a : A) : W A := fun wd => (Done a, wd).
Definition failW {A} (e : py_exn) : W A := fun wd => (Fail e, wd).
Definition bindW {A B} (m : W A) (f : A -> W B) : W B :=
  fun wd => match m wd with
            | (Done a, wd') => f a wd'
            | (Fail e, wd') => (Fail e, wd')
            end.

Notation "x <~ m ;; k" := (bindW m (fun x => k))
  (at level 100, m at next level, right associativity).

(** A computation on the arrays alone; the windows stay as they are. *)
Definition lift {A} (m : M A) : W A :=
  fun wd => match m (arrays wd) with
            | (Ok a, h) => (Done a, World h (windows wd))
            | (Raise e, h) => (Fail (Exn e), World h (windows wd))
            end.

(** [float(n)], also what [/] and [*] do to an int operand next to a
    float: the nearest float; an int beyond the largest float is
    refused. *)
Definition py_float (z : Z) : W float64 :=
  match f64_of_Z z with
  | S754_infinity _ => failW OverflowError
  | x => retW x
  end.

(** [x / y] on floats. *)
Definition py_truediv (x y : float64) : W float64 :=
  match y with
  | S754_zero _ => failW ZeroDivisionError
  | _ => retW (f64_div x y)
  end.

(** [int(x)] of a float: the integer part, toward zero. *)
Definition py_int (x : float64) : W Z :=
  match x with
  | S754_nan => failW (Exn ValueError)
  | S754_infinity _ => failW OverflowError
  | S754_zero _ => retW 0
  | S754_finite s m e => retW (cond_Zopp s (Z.shiftl (Zpos m) e))
  end.

(** A Python int that fits the C int of an OpenCV size. *)
Definition fits_int (z : Z) : bool := (- 2 ^ 31 <=? z) && (z <? 2 ^ 31).

(** The windows after [cv2.imshow(title, a)]: the window of that name
    shows [a]; it is created if there was none. *)
Fixpoint put_window (title : String.string) (a : ndarray) (ws : list (String.string * ndarray))
  : list (String.string * ndarray) :=
  match ws with
  | [] => [(title, a)]
  | (t, b) :: ws' =>
      if String.eqb t title then (t, a) :: ws' else (t, b) :: put_window title a ws'
  end.

(** [cv2.imshow(winname, mat)] on an 8-bit image. *)
Definition imshow (winname : String.string) (mat : loc) : W unit :=
  a <~ lift (load mat) ;;
  match a with
  | Img8 r c d =>
      if is_empty r c then failW (Exn cv2_error)
      else fun wd => (Done tt, World (arrays wd) (put_window winname a (windows wd)))
  | _ => failW (Exn TypeError)
  end.


Section Display.

Variable cvt_pixel : color_code -> pixel8 -> pixel8.
Variable nan_cast : byte.

(** The pixels OpenCV's area interpolation computes for an image of
    [rows] x [cols] pixels resized to [h] x [w]: not part of the
    notebook. *)
Variable resize_area : nat -> nat -> list pixel8 -> nat -> nat -> list pixel8.

(** The key [cv2.waitKey] reports. *)
Variable key : Z.

(** [cv2.resize(src, dsize, interpolation=cv2.INTER_AREA)] with
    [dsize = (width, height)]: a new image of [height] rows and [width]
    columns.  The binding refuses a size that is no C int (with
    OverflowError in the OpenCV of the notebook's time); OpenCV asserts
    a non-empty source and a size with positive width and height. *)
Definition resize (src : loc) (dsize : Z * Z) : W loc :=
  a <~ lift (load src) ;;
  let '(w, h) := dsize in
  match a with
  | Img8 r c d =>
      if negb (fits_int w && fits_int h) then failW OverflowError
      else if is_empty r c || (w <=? 0) || (h <=? 0) then failW (Exn cv2_error)
      else lift (alloc (Img8 (Z.to_nat h) (Z.to_nat w)
                             (resize_area r c d (Z.to_nat h) (Z.to_nat w))))
  | _ => failW (Exn TypeError)
  end.


(** [show_image(title, image, width=720)] *)
Definition show_image (title : String.string) (image : loc) (width : Z) : W unit :=
  a <~ lift (load image) ;;
  match a with
  | Img8 rows cols _ =>
      (* r = width/float(image.shape[1]) *)
      cols_f <~ py_float (Z.of_nat cols) ;;
      width_f <~ py_float width ;;
      r <~ py_truediv width_f cols_f ;;
      (* dim = (width, int(image.shape[0]*r)) *)
      rows_f <~ py_float (Z.of_nat rows) ;;
      height <~ py_int (f64_mul rows_f r) ;;
      let dim := (width, height) in
      resized <~ resize image dim ;;
      imshow title resized
  | _ => failW (Exn TypeError)
  end.


End Display.

(** The ratio [r] that [show_image] computes for an image of [cols]
    columns, and the height it passes to [cv2.resize] for an image of
    [rows] rows. *)
Definition scale_ratio (width : Z) (cols : nat) : float64 :=
  f64_div (f64_of_Z width) (f64_of_Z (Z.of_nat cols)).

Definition display_height (width : Z) (rows cols : nat) : Z :=
  match f64_mul (f64_of_Z (Z.of_nat rows)) (scale_ratio width cols) with
  | S754_finite s m e => cond_Zopp s (Z.shiftl (Zpos m) e)
  | _ => 0
  end.

(** The image [cv2.resize] returns for the size [(width, height)]. *)
Definition resized_to (resize_area : nat -> nat -> list pixel8 -> nat -> nat -> list pixel8)
    (rows cols : nat) (d : list pixel8) (width height : Z) : ndarray :=
  Img8 (Z.to_nat height) (Z.to_nat width)
       (resize_area rows cols d (Z.to_nat height) (Z.to_nat width)).

(** How [show_image] ends once the height is computed: [cv2.resize]
    refuses a height that is not positive; otherwise the resized image
    is a new array, and the window [title] shows it. *)
Definition shown (resize_area : nat -> nat -> list pixel8 -> nat -> nat -> list pixel8)
    (title : String.string) (rows cols : nat) (d : list pixel8) (width height : Z) (wd : world)
  : outcome unit * world :=
  if height <=? 0 then (Fail (Exn cv2_error), wd)
  else
    let resized := resized_to resize_area rows cols d width height in
    (Done tt, World (arrays wd ++ [resized]) (put_window title resized (windows wd))).

(** A stand-in for OpenCV's interpolation, for running [show_image] on
    concrete images: the nearest pixel up and to the left. *)
Definition resize_nearest (rows cols : nat) (d : list pixel8) (h w : nat) : list pixel8 :=
  flat_map (fun i => map (fun j => nth ((i * rows / h) * cols + j * cols / w)%nat d (x00, x00, x00))
                         (seq 0 w))
           (seq 0 h).

(* ================================================================== *)
(** * Running the notebook symbolically *)

(** ** The heap as "what was there" ++ "what the call allocated" *)

Lemma lookup_new (h news : heap) (i : nat) :
  (h ++ news) !! (length h + i)%nat = news !! i.
Proof. rewrite lookup_app_r by lia. f_equal. lia. Qed.

Lemma lookup_old (h news : heap) (l : loc) (a : ndarray) :
  h !! l = Some a -> (h ++ news) !! l = Some a.
Proof. intros H. apply lookup_app_l_Some. exact H. Qed.

Lemma run_from_nil {A} (m : M A) (h : heap) (r : result A * heap) :
  m (h ++ []) = r -> m h = r.
Proof. rewrite app_nil_r. auto. Qed.

Lemma is_empty_false (r c : nat) : (r * c)%nat <> 0%nat -> is_empty r c = false.
Proof. intros H. unfold is_empty. apply Nat.eqb_neq. exact H. Qed.


(** ** The monad *)

Lemma bind_Ok {A B} (m : M A) (f : A -> M B) (h : heap) (a : A) (h' : heap) :
  m h = (Ok a, h') -> bind m f h = f a h'.
Proof. intros H. unfold bind. rewrite H. reflexivity. Qed.

Lemma bind_Raise {A B} (m : M A) (f : A -> M B) (h : heap) (e : exn) (h' : heap) :
  m h = (Raise e, h') -> bind m f h = (Raise e, h').
Proof. intros H. unfold bind. rewrite H. reflexivity. Qed.

Lemma bind_assoc {A B C} (m : M A) (f : A -> M B) (g : B -> M C) (h : heap) :
  bind (bind m f) g h = bind m (fun x => bind (f x) g) h.
Proof. unfold bind. destruct (m h) as [[a|e] h']; reflexivity. Qed.

(** ** One equation per library call *)

Lemma alloc_spec (h news : heap) (a : ndarray) :
  alloc a (h ++ news) = (Ok (length h + length news)%nat, h ++ (news ++ [a])).
Proof. unfold alloc. rewrite length_app, <- app_assoc. reflexivity. Qed.

Lemma load_spec (h : heap) (l : loc) (a : ndarray) :
  h !! l = Some a -> load l h = (Ok a, h).
Proof. intros H. unfold load. rewrite H. reflexivity. Qed.

Lemma store_spec (h news : heap) (i : nat) (a : ndarray) :
  store (length h + i)%nat a (h ++ news) = (Ok tt, h ++ <[i := a]> news).
Proof. unfold store. rewrite insert_app_r. reflexivity. Qed.

Lemma unpack3_spec {A} (x y z : A) (h : heap) :
  unpack3 [x; y; z] h = (Ok (x, y, z), h).
Proof. reflexivity. Qed.

Lemma cvtColor_spec cvt (h news : heap) src code r c d :
  (h ++ news) !! src = Some (Img8 r c d) -> is_empty r c = false ->
  cvtColor cvt src code (h ++ news) =
    (Ok (length h + length news)%nat, h ++ (news ++ [Img8 r c (map (cvt code) d)])).
Proof.
  intros H E. unfold cvtColor. rewrite (bind_Ok _ _ _ _ _ (load_spec _ _ _ H)).
  rewrite E. apply alloc_spec.
Qed.

Lemma cvtColor_empty cvt (h : heap) src code r c d :
  h !! src = Some (Img8 r c d) -> is_empty r c = true ->
  cvtColor cvt src code h = (Raise cv2_error, h).
Proof.
  intros H E. unfold cvtColor. rewrite (bind_Ok _ _ _ _ _ (load_spec _ _ _ H)).
  rewrite E. reflexivity.
Qed.

Lemma cvtColor_not_img8 cvt (h : heap) src code :
  (forall r c d, h !! src <> Some (Img8 r c d)) ->
  cvtColor cvt src code h = (Raise TypeError, h).
Proof.
  intros H. unfold cvtColor, bind, load.
  destruct (h !! src) as [[r c d|r c d|r c d]|] eqn:E; try reflexivity.
  exfalso. exact (H r c d eq_refl).
Qed.

Lemma astype_float32_spec (h news : heap) src r c d :
  (h ++ news) !! src = Some (Img8 r c d) ->
  astype_float32 src (h ++ news) =
    (Ok (length h + length news)%nat, h ++ (news ++ [Img32 r c (map pixel_to_float32 d)])).
Proof.
  intros H. unfold astype_float32. rewrite (bind_Ok _ _ _ _ _ (load_spec _ _ _ H)).
  apply alloc_spec.
Qed.

Lemma astype_uint8_spec nan (h news : heap) src r c d :
  (h ++ news) !! src = Some (Img32 r c d) ->
  astype_uint8 nan src (h ++ news) =
    (Ok (length h + length news)%nat, h ++ (news ++ [Img8 r c (map (pixel_to_uint8 nan) d)])).
Proof.
  intros H. unfold astype_uint8. rewrite (bind_Ok _ _ _ _ _ (load_spec _ _ _ H)).
  apply alloc_spec.
Qed.

Lemma mean_spec (h : heap) x r c d :
  h !! x = Some (Chan32 r c d) -> mean x h = (Ok (np_mean d), h).
Proof.
  intros H. unfold mean. rewrite (bind_Ok _ _ _ _ _ (load_spec _ _ _ H)). reflexivity.
Qed.

Lemma std_spec (h : heap) x r c d :
  h !! x = Some (Chan32 r c d) -> std x h = (Ok (np_std d), h).
Proof.
  intros H. unfold std. rewrite (bind_Ok _ _ _ _ _ (load_spec _ _ _ H)). reflexivity.
Qed.

Lemma isub_spec (h news : heap) i s r c d :
  news !! i = Some (Chan32 r c d) ->
  isub (length h + i)%nat s (h ++ news) =
    (Ok tt, h ++ <[i := Chan32 r c (map (fun v => f32_sub v s) d)]> news).
Proof.
  intros H. unfold isub.
  rewrite (bind_Ok _ _ _ (Chan32 r c d) (h ++ news)).
  - apply store_spec.
  - apply load_spec. rewrite lookup_new. exact H.
Qed.

Lemma iadd_spec (h news : heap) i s r c d :
  news !! i = Some (Chan32 r c d) ->
  iadd (length h + i)%nat s (h ++ news) =
    (Ok tt, h ++ <[i := Chan32 r c (map (fun v => f32_add v s) d)]> news).
Proof.
  intros H. unfold iadd.
  rewrite (bind_Ok _ _ _ (Chan32 r c d) (h ++ news)).
  - apply store_spec.
  - apply load_spec. rewrite lookup_new. exact H.
Qed.

Lemma smul_spec (h news : heap) s x r c d :
  (h ++ news) !! x = Some (Chan32 r c d) ->
  smul s x (h ++ news) =
    (Ok (length h + length news)%nat, h ++ (news ++ [Chan32 r c (map (fun v => f32_mul s v) d)])).
Proof.
  intros H. unfold smul. rewrite (bind_Ok _ _ _ _ _ (load_spec _ _ _ H)). apply alloc_spec.
Qed.

Lemma clip_spec (h news : heap) x lo hi r c d :
  (h ++ news) !! x = Some (Chan32 r c d) ->
  clip x lo hi (h ++ news) =
    (Ok (length h + length news)%nat,
     h ++ (news ++ [Chan32 r c (map (fun v => npy_clip v (f32_of_Z lo) (f32_of_Z hi)) d)])).
Proof.
  intros H. unfold clip. rewrite (bind_Ok _ _ _ _ _ (load_spec _ _ _ H)). apply alloc_spec.
Qed.

Lemma split_spec (h news : heap) m r c d :
  (h ++ news) !! m = Some (Img32 r c d) -> is_empty r c = false ->
  split m (h ++ news) =
    (Ok [(length h + length news)%nat; (length h + S (length news))%nat;
         (length h + S (S (length news)))%nat],
     h ++ (news ++ [Chan32 r c (chan0 d); Chan32 r c (chan1 d); Chan32 r c (chan2 d)])).
Proof.
  intros H E. unfold split. rewrite (bind_Ok _ _ _ _ _ (load_spec _ _ _ H)). rewrite E.
  rewrite (bind_Ok _ _ _ _ _ (alloc_spec _ _ _)).
  rewrite (bind_Ok _ _ _ _ _ (alloc_spec _ _ _)).
  rewrite (bind_Ok _ _ _ _ _ (alloc_spec _ _ _)).
  unfold ret. rewrite !length_app. cbn [length]. rewrite <- !app_assoc. cbn [app].
  unfold chan0, chan1, chan2. repeat (f_equal; try lia).
Qed.

Lemma split_empty (h : heap) m r c d :
  h !! m = Some (Img32 r c d) -> is_empty r c = true ->
  split m h = (Ok [], h).
Proof.
  intros H E. unfold split. rewrite (bind_Ok _ _ _ _ _ (load_spec _ _ _ H)).
  rewrite E. reflexivity.
Qed.

Lemma merge_spec (h news : heap) l a b r c dl da db :
  (h ++ news) !! l = Some (Chan32 r c dl) ->
  (h ++ news) !! a = Some (Chan32 r c da) ->
  (h ++ news) !! b = Some (Chan32 r c db) ->
  merge l a b (h ++ news) =
    (Ok (length h + length news)%nat, h ++ (news ++ [Img32 r c (zip3 dl da db)])).
Proof.
  intros Hl Ha Hb. unfold merge.
  rewrite (bind_Ok _ _ _ _ _ (load_spec _ _ _ Hl)).
  rewrite (bind_Ok _ _ _ _ _ (load_spec _ _ _ Ha)).
  rewrite (bind_Ok _ _ _ _ _ (load_spec _ _ _ Hb)).
  rewrite !Nat.eqb_refl. apply alloc_spec.
Qed.

(** ** Stepping through a sequence of calls *)

Ltac find_cell :=
  first [ eassumption
        | apply lookup_old; eassumption
        | rewrite lookup_new; reflexivity
        | reflexivity ].

(** Run the first call of the program with the equation [lem]; what is
    left is the rest of the program on the heap that call leaves. *)
Ltac step_with lem :=
  eapply eq_trans;
  [ apply bind_Ok; apply lem; find_cell
  | cbv beta; cbn [length app Nat.add insert list_insert] ].

Lemma image_stats_spec (h news : heap) image r c d :
  (h ++ news) !! image = Some (Img32 r c d) -> is_empty r c = false ->
  image_stats image (h ++ news) =
    (Ok (np_mean (chan0 d), np_std (chan0 d), np_mean (chan1 d), np_std (chan1 d),
         np_mean (chan2 d), np_std (chan2 d)),
     h ++ (news ++ [Chan32 r c (chan0 d); Chan32 r c (chan1 d); Chan32 r c (chan2 d)])).
Proof.
  intros H E. unfold image_stats.
  eapply eq_trans; [ apply bind_Ok; apply split_spec; eassumption | cbv beta ].
  eapply eq_trans; [ apply bind_Ok; apply unpack3_spec | cbv beta iota ].
  assert (L0 : (h ++ news ++ [Chan32 r c (chan0 d); Chan32 r c (chan1 d); Chan32 r c (chan2 d)])
               !! (length h + length news)%nat = Some (Chan32 r c (chan0 d))).
  { rewrite lookup_new. apply list_lookup_middle. reflexivity. }
  assert (L1 : (h ++ news ++ [Chan32 r c (chan0 d); Chan32 r c (chan1 d); Chan32 r c (chan2 d)])
               !! (length h + S (length news))%nat = Some (Chan32 r c (chan1 d))).
  { rewrite lookup_new. rewrite lookup_app_r by lia.
    replace (S (length news) - length news)%nat with 1%nat by lia. reflexivity. }
  assert (L2 : (h ++ news ++ [Chan32 r c (chan0 d); Chan32 r c (chan1 d); Chan32 r c (chan2 d)])
               !! (length h + S (S (length news)))%nat = Some (Chan32 r c (chan2 d))).
  { rewrite lookup_new. rewrite lookup_app_r by lia.
    replace (S (S (length news)) - length news)%nat with 2%nat by lia. reflexivity. }
  rewrite (bind_Ok _ _ _ _ _ (mean_spec _ _ _ _ _ L0)).
  rewrite (bind_Ok _ _ _ _ _ (std_spec _ _ _ _ _ L0)).
  rewrite (bind_Ok _ _ _ _ _ (mean_spec _ _ _ _ _ L1)).
  rewrite (bind_Ok _ _ _ _ _ (std_spec _ _ _ _ _ L1)).
  rewrite (bind_Ok _ _ _ _ _ (mean_spec _ _ _ _ _ L2)).
  rewrite (bind_Ok _ _ _ _ _ (std_spec _ _ _ _ _ L2)).
  reflexivity.
Qed.

Lemma image_stats_empty (h : heap) image r c d :
  h !! image = Some (Img32 r c d) -> is_empty r c = true ->
  image_stats image h = (Raise ValueError, h).
Proof.
  intros H E. unfold image_stats.
  rewrite (bind_Ok _ _ _ _ _ (split_empty _ _ _ _ _ H E)). reflexivity.
Qed.

(** ** The whole of [color_transfer] *)

(** The conversion of the source went through; the target is read from
    the heap as it is then. *)
Lemma color_transfer_run cvt nan (h : heap) source target rs cs ds rt ct dt :
  h !! source = Some (Img8 rs cs ds) -> is_empty rs cs = false ->
  (h ++ trace_source cvt rs cs ds) !! target = Some (Img8 rt ct dt) ->
  is_empty rt ct = false ->
  color_transfer cvt nan source target h =
    (Ok (length h + 21)%nat, h ++ trace cvt nan rs cs ds rt ct dt).
Proof.
  intros Hs Es Ht Et.
  apply run_from_nil.
  unfold color_transfer.
  rewrite bind_assoc.
  step_with cvtColor_spec.
  step_with astype_float32_spec.
  rewrite bind_assoc.
  step_with cvtColor_spec.
  step_with astype_float32_spec.
  step_with image_stats_spec. cbv beta iota.
  step_with image_stats_spec. cbv beta iota.
  step_with split_spec.
  eapply eq_trans; [ apply bind_Ok; apply unpack3_spec | cbv beta iota ].
  step_with isub_spec.
  step_with isub_spec.
  step_with isub_spec.
  step_with smul_spec.
  step_with smul_spec.
  step_with smul_spec.
  step_with iadd_spec.
  step_with iadd_spec.
  step_with iadd_spec.
  step_with clip_spec.
  step_with clip_spec.
  step_with clip_spec.
  eapply eq_trans;
    [ apply bind_Ok; apply merge_spec; find_cell | cbv beta; cbn [length app Nat.add] ].
  rewrite bind_assoc.
  step_with astype_uint8_spec.
  step_with cvtColor_spec.
  reflexivity.
Qed.

(* ================================================================== *)
(** * binary32 facts *)

(** ** Digits and shifts *)

Lemma digits2_size (p : positive) : digits2_pos p = Pos.size p.
Proof. induction p; simpl; congruence. Qed.

Lemma zdigits_pos (p : positive) : 1 <= zdigits p.
Proof. unfold zdigits. lia. Qed.

Lemma zdigits_gt (p : positive) : Zpos p < 2 ^ zdigits p.
Proof.
  unfold zdigits. rewrite digits2_size. pose proof (Pos.size_gt p) as H.
  apply Pos2Z.pos_lt_pos in H. rewrite Pos2Z.inj_pow in H. exact H.
Qed.

Lemma zdigits_le (p : positive) : 2 ^ (zdigits p - 1) <= Zpos p.
Proof.
  unfold zdigits. rewrite digits2_size. pose proof (Pos.size_le p) as H.
  apply Pos2Z.pos_le_pos in H. rewrite Pos2Z.inj_pow in H.
  rewrite (Pos2Z.inj_xO p) in H.
  assert (E : 2 ^ Z.pos (Pos.size p) = 2 * 2 ^ (Z.pos (Pos.size p) - 1)).
  { rewrite <- Z.pow_succ_r by lia. f_equal. lia. }
  lia.
Qed.

(** digits from bounds *)
Lemma zdigits_upper (p : positive) (n : Z) : 0 <= n -> Zpos p < 2 ^ n -> zdigits p <= n.
Proof.
  intros Hn H. pose proof (zdigits_le p) as L. pose proof (zdigits_pos p).
  assert (2 ^ (zdigits p - 1) < 2 ^ n) by lia.
  apply Z.pow_lt_mono_r_iff in H1; lia.
Qed.

Lemma iter_pos_nat {A} (f : A -> A) (p : positive) (x : A) :
  SpecFloat.iter_pos f p x = Nat.iter (Pos.to_nat p) f x.
Proof.
  revert x. induction p as [p IH|p IH|]; intros x; cbn [SpecFloat.iter_pos].
  - rewrite !IH, Pos2Nat.inj_xI. rewrite <- Nat.iter_add.
    replace (S (2 * Pos.to_nat p)) with (Pos.to_nat p + Pos.to_nat p + 1)%nat by lia.
    rewrite <- (Nat.iter_add _ 1). reflexivity.
  - rewrite !IH, Pos2Nat.inj_xO. rewrite <- Nat.iter_add. f_equal. lia.
  - reflexivity.
Qed.

Lemma Pos_iter_nat {A} (f : A -> A) (p : positive) (x : A) :
  Pos.iter f x p = Nat.iter (Pos.to_nat p) f x.
Proof. apply Pos2Nat.inj_iter. Qed.

Lemma shl_S (n : nat) (p : positive) : shl (S n) p = xO (shl n p).
Proof. reflexivity. Qed.

Lemma shl_Z (n : nat) (p : positive) : Zpos (shl n p) = Zpos p * 2 ^ Z.of_nat n.
Proof.
  induction n as [|n IH].
  - cbn. lia.
  - rewrite shl_S, Pos2Z.inj_xO, IH.
    rewrite Nat2Z.inj_succ, Z.pow_succ_r by lia. lia.
Qed.

Lemma shl_add (a b : nat) (p : positive) : shl a (shl b p) = shl (a + b) p.
Proof. unfold shl. symmetry. apply Nat.iter_add. Qed.

Lemma zdigits_shl (n : nat) (p : positive) : zdigits (shl n p) = zdigits p + Z.of_nat n.
Proof.
  induction n as [|n IH].
  - cbn. lia.
  - rewrite shl_S. unfold zdigits in *. cbn [digits2_pos].
    rewrite Pos2Z.inj_succ, IH. lia.
Qed.

Lemma shr_shl (n : nat) (q : positive) :
  Nat.iter n shr_1 (Build_shr_record (Zpos (shl n q)) false false)
  = Build_shr_record (Zpos q) false false.
Proof.
  induction n as [|n IH].
  - reflexivity.
  - rewrite Nat.iter_succ_r, shl_S. cbn [shr_1 orb]. exact IH.
Qed.

Lemma fexp32_normal (z : Z) : -125 <= z -> fexp prec32 emax32 z = z - 24.
Proof. intros H. unfold fexp, emin, prec32, emax32. lia. Qed.

(** Rounding a mantissa with at least 24 bits whose low bits are all zero. *)
Lemma round_aux_exact (v : positive) (J : nat) :
  zdigits v <= 24 -> 24 <= zdigits v + Z.of_nat J ->
  binary_round_aux prec32 emax32 false (Zpos (shl J v)) (- Z.of_nat J) loc_Exact = f32_canon v.
Proof.
  intros D1 D2. pose proof (zdigits_pos v) as D0.
  unfold binary_round_aux.
  assert (S1 : shr_fexp prec32 emax32 (Zpos (shl J v)) (- Z.of_nat J) loc_Exact
               = (Build_shr_record (Zpos (shl (Z.to_nat (24 - zdigits v)) v)) false false,
                  zdigits v - 24)).
  { unfold shr_fexp. cbn [Zdigits2 shr_record_of_loc].
    change (Z.pos (digits2_pos (shl J v))) with (zdigits (shl J v)).
    rewrite zdigits_shl, fexp32_normal by lia.
    remember (zdigits v + Z.of_nat J + - Z.of_nat J - 24 - - Z.of_nat J) as s eqn:Es.
    assert (Hs : s = zdigits v + Z.of_nat J - 24) by lia.
    destruct s as [|ps|ps]; try lia.
    - cbn [shr]. f_equal; [|lia]. do 2 f_equal. f_equal. lia.
    - cbn [shr]. rewrite iter_pos_nat.
      replace J with (Pos.to_nat ps + Z.to_nat (24 - zdigits v))%nat at 1 by lia.
      rewrite <- shl_add, shr_shl. f_equal. lia. }
  rewrite S1. cbn [shr_m loc_of_shr_record round_nearest_even].
  assert (S2 : shr_fexp prec32 emax32 (Zpos (shl (Z.to_nat (24 - zdigits v)) v)) (zdigits v - 24) loc_Exact
               = (Build_shr_record (Zpos (shl (Z.to_nat (24 - zdigits v)) v)) false false,
                  zdigits v - 24)).
  { unfold shr_fexp. cbn [Zdigits2 shr_record_of_loc].
    change (Z.pos (digits2_pos ?p)) with (zdigits p).
    rewrite zdigits_shl, fexp32_normal by lia.
    replace (zdigits v + Z.of_nat (Z.to_nat (24 - zdigits v)) + (zdigits v - 24) - 24 - (zdigits v - 24)) with 0 by lia.
    reflexivity. }
  rewrite S2. cbn [shr_m].
  unfold prec32, emax32. replace (zdigits v - 24 <=? 128 - 24) with true by (symmetry; apply Z.leb_le; lia).
  reflexivity.
Qed.

Lemma Pos_iter_shl (d : positive) (p : positive) : Pos.iter xO p d = shl (Pos.to_nat d) p.
Proof. apply Pos_iter_nat. Qed.

(** Rounding an integer below 2^24 held with any number of trailing zero bits. *)
Lemma round_exact (v : positive) (J : nat) :
  zdigits v <= 24 ->
  binary_round prec32 emax32 false (shl J v) (- Z.of_nat J) = f32_canon v.
Proof.
  intros D. pose proof (zdigits_pos v) as D0.
  unfold binary_round, shl_align.
  change (Z.pos (digits2_pos (shl J v))) with (zdigits (shl J v)).
  rewrite zdigits_shl, fexp32_normal by lia.
  destruct (zdigits v + Z.of_nat J + - Z.of_nat J - 24 - - Z.of_nat J) as [|d|d] eqn:E.
  - apply round_aux_exact; lia.
  - apply round_aux_exact; lia.
  - rewrite Pos_iter_shl, shl_add.
    replace (zdigits v + Z.of_nat J + - Z.of_nat J - 24)
      with (- Z.of_nat (Pos.to_nat d + J)) by lia.
    apply round_aux_exact; lia.
Qed.

Lemma f32_of_Z_canon (v : positive) : zdigits v <= 24 -> f32_of_Z (Zpos v) = f32_canon v.
Proof. intros D. exact (round_exact v 0 D). Qed.

Lemma shl_align_to (p : positive) (n j : nat) :
  (n <= j)%nat -> fst (shl_align (shl n p) (- Z.of_nat n) (- Z.of_nat j)) = shl j p.
Proof.
  intros H. unfold shl_align.
  destruct (- Z.of_nat j - - Z.of_nat n) as [|d|d] eqn:E; cbn [fst].
  - f_equal. lia.
  - lia.
  - rewrite Pos_iter_shl, shl_add. f_equal. lia.
Qed.

Lemma shl_plus (j : nat) (a b : positive) : (shl j a + shl j b)%positive = shl j (a + b).
Proof. apply Pos2Z.inj. rewrite Pos2Z.inj_add, !shl_Z, Pos2Z.inj_add. lia. Qed.

Lemma f32_canon_shape (p : positive) :
  zdigits p <= 24 ->
  f32_canon p = S754_finite false (shl (Z.to_nat (24 - zdigits p)) p)
                            (- Z.of_nat (Z.to_nat (24 - zdigits p))).
Proof. intros D. unfold f32_canon. f_equal. lia. Qed.

Lemma zdigits_mono (a b : positive) : (a <= b)%positive -> zdigits a <= zdigits b.
Proof.
  intros H. apply zdigits_upper; [pose proof (zdigits_pos b); lia|].
  pose proof (zdigits_gt b). lia.
Qed.

Lemma f32_add_canon (a b : positive) :
  zdigits (a + b) <= 24 -> f32_add (f32_canon a) (f32_canon b) = f32_canon (a + b).
Proof.
  intros D.
  assert (Da : zdigits a <= 24) by (pose proof (zdigits_mono a (a + b)); lia).
  assert (Db : zdigits b <= 24) by (pose proof (zdigits_mono b (a + b)); lia).
  rewrite (f32_canon_shape a Da), (f32_canon_shape b Db).
  set (na := Z.to_nat (24 - zdigits a)). set (nb := Z.to_nat (24 - zdigits b)).
  unfold f32_add, SFadd.
  replace (Z.min (- Z.of_nat na) (- Z.of_nat nb)) with (- Z.of_nat (Nat.max na nb)) by lia.
  rewrite !shl_align_to by lia.
  cbn [cond_Zopp]. rewrite <- Pos2Z.inj_add, shl_plus.
  cbn [binary_normalize]. apply round_exact. exact D.
Qed.

Lemma zdigits_mul (a b : positive) : zdigits (a * b) <= zdigits a + zdigits b.
Proof.
  pose proof (zdigits_pos a). pose proof (zdigits_pos b).
  apply zdigits_upper; [lia|].
  rewrite Pos2Z.inj_mul, Z.pow_add_r by lia.
  pose proof (zdigits_gt a). pose proof (zdigits_gt b).
  apply Z.mul_lt_mono_nonneg; lia.
Qed.

Lemma new_location_exact (m : Z) : new_location m 0 = loc_Exact.
Proof.
  unfold new_location, new_location_even, new_location_odd.
  destruct (Z.even m); reflexivity.
Qed.

Lemma div_eucl_exact (q m : Z) : 0 < m -> Z.div_eucl (q * m) m = (q, 0).
Proof.
  intros H. destruct (Z.div_eucl (q * m) m) as [q' r'] eqn:E.
  assert (Hq : q' = q).
  { change q' with (fst (q', r')). rewrite <- E.
    change (fst (Z.div_eucl ?a ?b)) with (a / b). apply Z.div_mul. lia. }
  assert (Hr : r' = 0).
  { change r' with (snd (q', r')). rewrite <- E.
    change (snd (Z.div_eucl ?a ?b)) with (a mod b). apply Z.mod_mul. lia. }
  congruence.
Qed.

Lemma f32_div_canon (n k : positive) :
  zdigits (n * k) <= 24 -> f32_div (f32_canon (n * k)) (f32_canon n) = f32_canon k.
Proof.
  intros D.
  assert (Dn : zdigits n <= 24).
  { pose proof (zdigits_mono n (n * k)). assert (n <= n * k)%positive by nia. lia. }
  assert (Dk : zdigits k <= 24).
  { pose proof (zdigits_mono k (n * k)). assert (k <= n * k)%positive by nia. lia. }
  pose proof (zdigits_mul n k) as Dm.
  pose proof (zdigits_pos n). pose proof (zdigits_pos k). pose proof (zdigits_pos (n * k)).
  rewrite (f32_canon_shape (n * k) D), (f32_canon_shape n Dn).
  set (n1 := Z.to_nat (24 - zdigits (n * k))). set (n2 := Z.to_nat (24 - zdigits n)).
  set (J := (n1 + 24 - n2)%nat).
  assert (C : SFdiv_core_binary prec32 emax32 (Zpos (shl n1 (n * k))) (- Z.of_nat n1)
                                (Zpos (shl n2 n)) (- Z.of_nat n2)
              = (Zpos (shl J k), - Z.of_nat J, loc_Exact)).
  { unfold SFdiv_core_binary. cbn [Zdigits2].
    change (Z.pos (digits2_pos ?p)) with (zdigits p).
    rewrite !zdigits_shl, fexp32_normal by lia.
    replace (Z.min _ _) with (- Z.of_nat J) by lia.
    replace (- Z.of_nat n1 - - Z.of_nat n2 - - Z.of_nat J) with 24 by lia.
    cbv beta iota zeta.
    rewrite Z.shiftl_mul_pow2 by lia.
    replace (Z.pos (shl n1 (n * k)) * 2 ^ 24) with (Z.pos (shl J k) * Z.pos (shl n2 n)).
    - rewrite div_eucl_exact by lia. rewrite new_location_exact. reflexivity.
    - rewrite !shl_Z, Pos2Z.inj_mul.
      replace (Z.of_nat J) with (Z.of_nat n1 + 24 - Z.of_nat n2) by lia.
      replace (Z.pos n * Z.pos k * 2 ^ Z.of_nat n1 * 2 ^ 24)
        with (Z.pos k * Z.pos n * (2 ^ Z.of_nat n1 * 2 ^ 24)) by ring.
      rewrite <- Z.pow_add_r by lia.
      replace (Z.pos k * 2 ^ (Z.of_nat n1 + 24 - Z.of_nat n2) * (Z.pos n * 2 ^ Z.of_nat n2))
        with (Z.pos k * Z.pos n * (2 ^ (Z.of_nat n1 + 24 - Z.of_nat n2) * 2 ^ Z.of_nat n2)) by ring.
      rewrite <- Z.pow_add_r by lia. do 2 f_equal. lia. }
  unfold f32_div, SFdiv. rewrite C. cbn [xorb].
  apply round_aux_exact; lia.
Qed.

(** ** Special cases of the operations *)


Lemma f32_sub_self (x : float32) : f32_is_finite x = true -> f32_sub x x = f32_zero.
Proof.
  destruct x as [s|s| |s m e]; intros H; try discriminate.
  - destruct s; reflexivity.
  - unfold f32_sub, SFsub. rewrite Z.sub_diag. reflexivity.
Qed.

(** ** Clipping and the cast to uint8 *)











(** ** Sums and means of integer-valued channels *)

Lemma f32_of_Z_pos (z : Z) :
  0 < z < 2 ^ 24 -> f32_of_Z z = f32_canon (Z.to_pos z) /\ zdigits (Z.to_pos z) <= 24.
Proof.
  intros H. destruct z as [|p|p]; try lia. cbn [Z.to_pos].
  assert (D : zdigits p <= 24) by (apply zdigits_upper; lia).
  split; [apply f32_of_Z_canon; exact D | exact D].
Qed.

Lemma f32_of_Z_finite (z : Z) : 0 <= z < 2 ^ 24 -> f32_is_finite (f32_of_Z z) = true.
Proof.
  intros H. destruct (Z.eq_dec z 0) as [->|N]; [reflexivity|].
  destruct (f32_of_Z_pos z ltac:(lia)) as [-> _]. reflexivity.
Qed.

Lemma f32_of_Z_add (a b : Z) :
  0 <= a -> 0 <= b -> a + b < 2 ^ 24 ->
  f32_add (f32_of_Z a) (f32_of_Z b) = f32_of_Z (a + b).
Proof.
  intros Ha Hb H.
  destruct (Z.eq_dec a 0) as [->|Na].
  { destruct (Z.eq_dec b 0) as [->|Nb]; [reflexivity|].
    destruct (f32_of_Z_pos b ltac:(lia)) as [E _]. rewrite Z.add_0_l, E. reflexivity. }
  destruct (Z.eq_dec b 0) as [->|Nb].
  { destruct (f32_of_Z_pos a ltac:(lia)) as [E _]. rewrite Z.add_0_r, E. reflexivity. }
  destruct (f32_of_Z_pos a ltac:(lia)) as [Ea _].
  destruct (f32_of_Z_pos b ltac:(lia)) as [Eb _].
  destruct (f32_of_Z_pos (a + b) ltac:(lia)) as [Eab D].
  rewrite Ea, Eb, Eab.
  replace (Z.to_pos (a + b)) with (Z.to_pos a + Z.to_pos b)%positive in * by lia.
  apply f32_add_canon. exact D.
Qed.

Lemma f32_of_Z_div (n k : Z) :
  0 < n < 2 ^ 24 -> 0 <= k -> n * k < 2 ^ 24 ->
  f32_div (f32_of_Z (n * k)) (f32_of_Z n) = f32_of_Z k.
Proof.
  intros Hn Hk H.
  destruct (f32_of_Z_pos n Hn) as [En _].
  destruct (Z.eq_dec k 0) as [->|Nk].
  { rewrite Z.mul_0_r, En. reflexivity. }
  destruct (f32_of_Z_pos k ltac:(nia)) as [Ek _].
  destruct (f32_of_Z_pos (n * k) ltac:(nia)) as [Enk D].
  rewrite En, Ek, Enk.
  replace (Z.to_pos (n * k)) with (Z.to_pos n * Z.to_pos k)%positive in * by nia.
  apply f32_div_canon. exact D.
Qed.

Lemma fold_add_repeat (k : Z) (n : nat) (a : Z) :
  0 <= a -> 0 <= k -> a + Z.of_nat n * k < 2 ^ 24 ->
  fold_left f32_add (repeat (f32_of_Z k) n) (f32_of_Z a) = f32_of_Z (a + Z.of_nat n * k).
Proof.
  revert a. induction n as [|n IH]; intros a Ha Hk H.
  - cbn. f_equal. lia.
  - cbn [repeat fold_left]. rewrite f32_of_Z_add by nia.
    rewrite IH by nia. f_equal. lia.
Qed.

Lemma np_mean_repeat (k : Z) (n : nat) :
  0 <= k -> 0 < Z.of_nat n < 2 ^ 24 -> Z.of_nat n * k < 2 ^ 24 ->
  np_mean (repeat (f32_of_Z k) n) = f32_of_Z k.
Proof.
  intros Hk Hn H. unfold np_mean, np_sum.
  change f32_zero with (f32_of_Z 0). rewrite fold_add_repeat by lia.
  rewrite repeat_length. cbn [Z.add]. apply f32_of_Z_div; assumption.
Qed.

Lemma np_std_repeat (k : Z) (n : nat) :
  0 <= k -> 0 < Z.of_nat n < 2 ^ 24 -> Z.of_nat n * k < 2 ^ 24 ->
  np_std (repeat (f32_of_Z k) n) = f32_zero.
Proof.
  intros Hk Hn H. unfold np_std. cbv zeta. rewrite np_mean_repeat by assumption.
  assert (E : map (fun x => f32_mul (f32_sub x (f32_of_Z k)) (f32_sub x (f32_of_Z k)))
                  (repeat (f32_of_Z k) n) = repeat (f32_of_Z 0) n).
  { rewrite map_repeat. f_equal. rewrite f32_sub_self by (apply f32_of_Z_finite; nia). reflexivity. }
  rewrite E. rewrite np_mean_repeat by lia. reflexivity.
Qed.


(* ================================================================== *)
(** * The planes read value by value *)

Lemma remapped_formula (src tar : list float32) :
  remapped src tar =
  map (fun v => f32_add (f32_mul (scale_factor (np_std tar) (np_std src))
                                 (f32_sub v (np_mean tar)))
                        (np_mean src)) tar.
Proof. unfold remapped, scaled, centred. rewrite !map_map. reflexivity. Qed.

Lemma clipped_formula (src tar : list float32) :
  clipped src tar = map (transfer_value src tar) tar.
Proof. unfold clipped. rewrite remapped_formula, map_map. reflexivity. Qed.


Lemma zip3_map {A B C D} (f : A -> B) (g : A -> C) (k : A -> D) (l : list A) :
  zip3 (map f l) (map g l) (map k l) = map (fun x => (f x, g x, k x)) l.
Proof. induction l as [|x l IH]; [reflexivity|]. cbn. f_equal. exact IH. Qed.

Lemma merged_pixelwise cvt (ds dt : list pixel8) :
  merged cvt ds dt =
  map (fun p : pixel32 =>
         (transfer_value (chan0 (lab32 cvt ds)) (chan0 (lab32 cvt dt)) (fst (fst p)),
          transfer_value (chan1 (lab32 cvt ds)) (chan1 (lab32 cvt dt)) (snd (fst p)),
          transfer_value (chan2 (lab32 cvt ds)) (chan2 (lab32 cvt dt)) (snd p)))
      (lab32 cvt dt).
Proof.
  unfold merged. cbv zeta. rewrite !clipped_formula.
  unfold chan0 at 3, chan1 at 3, chan2 at 3. rewrite !map_map.
  apply (zip3_map (fun p : pixel32 => transfer_value _ _ (fst (fst p)))
                  (fun p : pixel32 => transfer_value _ _ (snd (fst p)))
                  (fun p : pixel32 => transfer_value _ _ (snd p))).
Qed.

Lemma transferred_length cvt nan (ds dt : list pixel8) :
  length (transferred cvt nan ds dt) = length dt.
Proof.
  unfold transferred. rewrite merged_pixelwise. unfold lab32.
  rewrite !length_map. reflexivity.
Qed.

Lemma transfer_result_run cvt nan (h : heap) source target rs cs ds rt ct dt :
  h !! source = Some (Img8 rs cs ds) -> h !! target = Some (Img8 rt ct dt) ->
  (rs * cs)%nat <> 0%nat -> (rt * ct)%nat <> 0%nat ->
  transfer_result cvt nan h source target = Some (Img8 rt ct (transferred cvt nan ds dt)).
Proof.
  intros Hs Ht Es Et. unfold transfer_result.
  rewrite (color_transfer_run cvt nan h source target rs cs ds rt ct dt Hs
             (is_empty_false _ _ Es) (lookup_old _ _ _ _ Ht) (is_empty_false _ _ Et)).
  rewrite lookup_new. reflexivity.
Qed.

(** ** Degenerate statistics *)

Lemma Z_of_byte_range (b : byte) : 0 <= Z_of_byte b <= 255.
Proof. unfold Z_of_byte. pose proof (Byte.to_N_bounded b). lia. Qed.





Lemma remapped_nan (src tar : list float32) :
  f32_is_zero (np_std tar) = true -> f32_is_zero (np_std src) = true ->
  remapped src tar = repeat S754_nan (length tar).
Proof.
  intros Ht Hs. rewrite remapped_formula. unfold scale_factor.
  destruct (np_std tar) as [st| | |]; try discriminate.
  destruct (np_std src) as [ss| | |]; try discriminate.
  cbn [f32_div SFdiv f32_mul SFmul f32_add SFadd].
  induction tar as [|v tar IH]; [reflexivity|].
  cbn [map length repeat]. f_equal. exact IH.
Qed.


(** ** Uniform images *)

Lemma chan_repeat (x y z : float32) (n : nat) :
  chan0 (repeat ((x, y, z) : pixel32) n) = repeat x n /\
  chan1 (repeat ((x, y, z) : pixel32) n) = repeat y n /\
  chan2 (repeat ((x, y, z) : pixel32) n) = repeat z n.
Proof. unfold chan0, chan1, chan2. rewrite !map_repeat. auto. Qed.

Lemma np_std_uniform_byte (b : byte) (n : nat) :
  (0 < n)%nat -> Z.of_nat n * 255 < 2 ^ 24 ->
  np_std (repeat (f32_of_byte b) n) = f32_zero.
Proof.
  intros Hn H. pose proof (Z_of_byte_range b) as R.
  unfold f32_of_byte. apply np_std_repeat; nia.
Qed.

Lemma clipped_uniform (x y : byte) (ns nt : nat) :
  (0 < ns)%nat -> Z.of_nat ns * 255 < 2 ^ 24 ->
  (0 < nt)%nat -> Z.of_nat nt * 255 < 2 ^ 24 ->
  clipped (repeat (f32_of_byte x) ns) (repeat (f32_of_byte y) nt) = repeat S754_nan nt.
Proof.
  intros Hs Bs Ht Bt. unfold clipped.
  rewrite remapped_nan by (rewrite np_std_uniform_byte by assumption; reflexivity).
  rewrite repeat_length, map_repeat. reflexivity.
Qed.

Lemma zip3_repeat {A B C} (x : A) (y : B) (z : C) (n : nat) :
  zip3 (repeat x n) (repeat y n) (repeat z n) = repeat (x, y, z) n.
Proof. induction n as [|n IH]; [reflexivity|]. cbn. f_equal. exact IH. Qed.

Lemma merged_uniform cvt (ps pt : pixel8) (ns nt : nat) :
  (0 < ns)%nat -> Z.of_nat ns * 255 < 2 ^ 24 ->
  (0 < nt)%nat -> Z.of_nat nt * 255 < 2 ^ 24 ->
  merged cvt (repeat ps ns) (repeat pt nt) = repeat (S754_nan, S754_nan, S754_nan) nt.
Proof.
  intros Hs Bs Ht Bt. unfold merged, lab32. cbv zeta. rewrite !map_repeat.
  destruct (cvt COLOR_BGR2LAB ps) as [[xs ys] zs].
  destruct (cvt COLOR_BGR2LAB pt) as [[xt yt] zt].
  cbn [pixel_to_float32].
  destruct (chan_repeat (f32_of_byte xs) (f32_of_byte ys) (f32_of_byte zs) ns) as (-> & -> & ->).
  destruct (chan_repeat (f32_of_byte xt) (f32_of_byte yt) (f32_of_byte zt) nt) as (-> & -> & ->).
  rewrite !clipped_uniform by assumption. apply zip3_repeat.
Qed.

Lemma transferred_uniform cvt nan (ps pt : pixel8) (ns nt : nat) :
  (0 < ns)%nat -> Z.of_nat ns * 255 < 2 ^ 24 ->
  (0 < nt)%nat -> Z.of_nat nt * 255 < 2 ^ 24 ->
  transferred cvt nan (repeat ps ns) (repeat pt nt)
  = repeat (cvt COLOR_LAB2BGR (nan, nan, nan)) nt.
Proof.
  intros Hs Bs Ht Bt. unfold transferred.
  rewrite merged_uniform by assumption. rewrite !map_repeat. reflexivity.
Qed.

(** ** Calls that raise, and what any call does to the heap *)

Lemma color_transfer_source_fails cvt nan (h : heap) source target e :
  cvtColor cvt source COLOR_BGR2LAB h = (Raise e, h) ->
  color_transfer cvt nan source target h = (Raise e, h).
Proof.
  intros H. unfold color_transfer. rewrite bind_assoc.
  apply bind_Raise. exact H.
Qed.

Lemma color_transfer_target_fails cvt nan (h : heap) source target rs cs ds e :
  h !! source = Some (Img8 rs cs ds) -> is_empty rs cs = false ->
  cvtColor cvt target COLOR_BGR2LAB (h ++ trace_source cvt rs cs ds)
    = (Raise e, h ++ trace_source cvt rs cs ds) ->
  color_transfer cvt nan source target h = (Raise e, h ++ trace_source cvt rs cs ds).
Proof.
  intros Hs Es H. apply run_from_nil. unfold color_transfer.
  rewrite bind_assoc.
  step_with cvtColor_spec.
  step_with astype_float32_spec.
  rewrite bind_assoc.
  apply bind_Raise. exact H.
Qed.

Lemma cvtColor_cases cvt (h : heap) (src : loc) (code : color_code) :
  (exists r c d, h !! src = Some (Img8 r c d) /\ is_empty r c = false) \/
  (exists e, cvtColor cvt src code h = (Raise e, h)).
Proof.
  destruct (h !! src) as [[r c d|r c d|r c d]|] eqn:E.
  - destruct (is_empty r c) eqn:Em.
    + right. exists cv2_error. apply (cvtColor_empty cvt h src code r c d E Em).
    + left. exists r, c, d. auto.
  - right. exists TypeError. apply cvtColor_not_img8. congruence.
  - right. exists TypeError. apply cvtColor_not_img8. congruence.
  - right. exists TypeError. apply cvtColor_not_img8. congruence.
Qed.

Lemma color_transfer_heap cvt nan (h : heap) (source target : loc) :
  exists news,
    snd (color_transfer cvt nan source target h) = h ++ news /\
    forall r, fst (color_transfer cvt nan source target h) = Ok r ->
              r = (length h + 21)%nat /\ length news = 22%nat.
Proof.
  destruct (cvtColor_cases cvt h source COLOR_BGR2LAB) as [(rs & cs & ds & Hs & Es)|[e He]].
  2:{ exists []. rewrite (color_transfer_source_fails cvt nan h source target e He).
      cbn [fst snd]. split; [symmetry; apply app_nil_r | discriminate]. }
  destruct (cvtColor_cases cvt (h ++ trace_source cvt rs cs ds) target COLOR_BGR2LAB)
    as [(rt & ct & dt & Ht & Et)|[e He]].
  2:{ exists (trace_source cvt rs cs ds).
      rewrite (color_transfer_target_fails cvt nan h source target rs cs ds e Hs Es He).
      cbn [fst snd]. split; [reflexivity | discriminate]. }
  exists (trace cvt nan rs cs ds rt ct dt).
  rewrite (color_transfer_run cvt nan h source target rs cs ds rt ct dt Hs Es Ht Et).
  cbn [fst snd]. split; [reflexivity|]. intros r [= <-]. split; reflexivity.
Qed.

(** ** [image_stats] channel by channel *)




(* ================================================================== *)
(** * Signs, casts and failures *)

(** ** The sign of a rounded result *)

Lemma round_aux_sign prec emax s m e l :
  f32_signbit (binary_round_aux prec emax s m e l) = s \/
  binary_round_aux prec emax s m e l = S754_nan.
Proof.
  unfold binary_round_aux.
  destruct (shr_fexp prec emax m e l) as [r1 e1].
  destruct (shr_fexp prec emax _ e1 loc_Exact) as [r2 e2].
  destruct (shr_m r2); [left; reflexivity | | right; reflexivity].
  destruct (e2 <=? emax - prec); left; reflexivity.
Qed.

Lemma round_aux_signbit prec emax m e l :
  f32_signbit (binary_round_aux prec emax false m e l) = false.
Proof. destruct (round_aux_sign prec emax false m e l) as [H|H]; rewrite H; reflexivity. Qed.

Lemma normalize_signbit prec emax (m : Z) e :
  0 <= m -> f32_signbit (binary_normalize prec emax m e false) = false.
Proof.
  intros H. destruct m as [|m|m]; try lia; [reflexivity|].
  cbn [binary_normalize]. unfold binary_round.
  destruct (shl_align m e _) as [m' e']. apply round_aux_signbit.
Qed.

Lemma f32_add_signbit (x y : float32) :
  f32_signbit x = false -> f32_signbit y = false -> f32_signbit (f32_add x y) = false.
Proof.
  destruct x as [sx|sx| |sx mx ex], y as [sy|sy| |sy my ey]; cbn [f32_signbit];
    intros Hx Hy; subst; try reflexivity.
  unfold f32_add, SFadd. cbn [cond_Zopp]. apply normalize_signbit. lia.
Qed.

Lemma f32_div_signbit (x y : float32) :
  f32_signbit x = false -> f32_signbit y = false -> f32_signbit (f32_div x y) = false.
Proof.
  destruct x as [sx|sx| |sx mx ex], y as [sy|sy| |sy my ey]; cbn [f32_signbit];
    intros Hx Hy; subst; try reflexivity.
  unfold f32_div, SFdiv.
  destruct (SFdiv_core_binary prec32 emax32 (Z.pos mx) ex (Z.pos my) ey) as [[mz ez] lz].
  apply round_aux_signbit.
Qed.

Lemma f32_square_signbit (d : float32) : f32_signbit (f32_mul d d) = false.
Proof.
  destruct d as [s|s| |s m e]; try reflexivity; try (destruct s; reflexivity).
  unfold f32_mul, SFmul. rewrite xorb_nilpotent. apply round_aux_signbit.
Qed.

Lemma f32_sqrt_signbit (x : float32) : f32_signbit x = false -> f32_signbit (f32_sqrt x) = false.
Proof.
  destruct x as [s|s| |s m e]; cbn [f32_signbit]; intros Hx; subst; try reflexivity.
  unfold f32_sqrt, SFsqrt.
  destruct (SFsqrt_core_binary prec32 emax32 (Z.pos m) e) as [[mz ez] lz].
  apply round_aux_signbit.
Qed.

Lemma f32_of_nat_signbit (n : nat) : f32_signbit (f32_of_Z (Z.of_nat n)) = false.
Proof. apply normalize_signbit. lia. Qed.

Lemma np_sum_signbit (xs : list float32) :
  Forall (fun x => f32_signbit x = false) xs -> f32_signbit (np_sum xs) = false.
Proof.
  unfold np_sum. assert (Z : f32_signbit f32_zero = false) by reflexivity.
  revert Z. generalize f32_zero. induction xs as [|x xs IH]; intros acc Z H; [exact Z|].
  cbn [fold_left]. apply Forall_cons_1 in H. destruct H as [Hx Hxs].
  apply IH; [|exact Hxs]. apply f32_add_signbit; assumption.
Qed.

Lemma np_std_signbit (xs : list float32) : f32_signbit (np_std xs) = false.
Proof.
  unfold np_std. cbv zeta. apply f32_sqrt_signbit. unfold np_mean.
  apply f32_div_signbit; [|apply f32_of_nat_signbit].
  apply np_sum_signbit. apply Forall_map. apply Forall_forall. intros x _.
  apply f32_square_signbit.
Qed.

(** ** A source plane without deviation *)


(** ** When [image_stats] returns, the two casts, where [cvtColor] fails *)

Lemma image_stats_cases (h : heap) image s :
  fst (image_stats image h) = Ok s ->
  exists r c d, h !! image = Some (Img32 r c d) /\ is_empty r c = false /\
    s = (np_mean (chan0 d), np_std (chan0 d), np_mean (chan1 d), np_std (chan1 d),
         np_mean (chan2 d), np_std (chan2 d)).
Proof.
  intros H.
  destruct (h !! image) as [[r c d|r c d|r c d]|] eqn:E.
  - unfold image_stats, split, bind, load in H. rewrite E in H. discriminate.
  - destruct (is_empty r c) eqn:Em.
    + rewrite (image_stats_empty h image r c d E Em) in H. discriminate.
    + pose proof (image_stats_spec h [] image r c d) as R. rewrite app_nil_r in R.
      rewrite (R E Em) in H. cbn [fst] in H. injection H as <-.
      exists r, c, d. auto.
  - unfold image_stats, split, bind, load in H. rewrite E in H.
    destruct (is_empty r c); discriminate.
  - unfold image_stats, split, bind, load in H. rewrite E in H. discriminate.
Qed.

Lemma f32_trunc_of_byte (b : byte) : f32_trunc (f32_of_byte b) = Some (Z_of_byte b).
Proof. destruct b; vm_compute; reflexivity. Qed.

Lemma byte_of_Z_of_byte (b : byte) : byte_of_Z (Z_of_byte b) = b.
Proof. destruct b; reflexivity. Qed.

Lemma f32_to_uint8_of_byte (nan b : byte) : f32_to_uint8 nan (f32_of_byte b) = b.
Proof. unfold f32_to_uint8. rewrite f32_trunc_of_byte. apply byte_of_Z_of_byte. Qed.

Lemma pixel_roundtrip (nan : byte) (p : pixel8) : pixel_to_uint8 nan (pixel_to_float32 p) = p.
Proof.
  destruct p as [[x y] z]. cbn [pixel_to_float32 pixel_to_uint8].
  rewrite !f32_to_uint8_of_byte. reflexivity.
Qed.


(* ================================================================== *)
(** * binary64 facts *)

(** ** Shifting right with a record of what was lost *)

Lemma zdigits_lower (p : positive) (n : Z) : 2 ^ (n - 1) <= Zpos p -> n <= zdigits p.
Proof.
  intros H. pose proof (zdigits_gt p) as G. pose proof (zdigits_pos p) as P.
  destruct (Z_lt_le_dec (zdigits p) n) as [L|L]; [|lia].
  assert (2 ^ zdigits p <= 2 ^ (n - 1)) by (apply Z.pow_le_mono_r; lia). lia.
Qed.

Lemma zdigits_eq (p : positive) (n : Z) :
  0 < n -> 2 ^ (n - 1) <= Zpos p < 2 ^ n -> zdigits p = n.
Proof.
  intros Hn [L U]. pose proof (zdigits_lower p n L). pose proof (zdigits_upper p n ltac:(lia) U). lia.
Qed.

Lemma loc_of_record_of_loc (m : Z) (l : location) :
  loc_of_shr_record (shr_record_of_loc m l) = l /\ shr_m (shr_record_of_loc m l) = m.
Proof. destruct l as [|[| |]]; split; reflexivity. Qed.

Lemma shr_1_represents (r : shr_record) (N D : Z) :
  0 <= N -> 0 < D -> represents r N D -> represents (shr_1 r) N (2 * D).
Proof.
  intros HN HD [Hm Hl].
  assert (Q : N / (2 * D) = (N / D) / 2).
  { rewrite Z.mul_comm. symmetry. apply Z.div_div; lia. }
  assert (R : N mod (2 * D) = N mod D + D * ((N / D) mod 2)).
  { rewrite Z.mul_comm. apply Z.rem_mul_r; lia. }
  pose proof (Z.mod_pos_bound N D HD) as B.
  pose proof (Z.div_pos N D HN HD) as P.
  unfold represents. rewrite Q, R. clear Q R.
  destruct r as [m rr ss]. cbn [shr_m] in Hm. cbn [loc_of_shr_record] in Hl.
  rewrite <- Hm in *. clear Hm.
  assert (S : (rr || ss = false /\ N mod D = 0) \/ (rr || ss = true /\ 0 < N mod D)).
  { unfold located in Hl. destruct (Z.eqb_spec (N mod D) 0) as [E|E].
    - left. destruct rr, ss; try discriminate. auto.
    - right. destruct rr, ss; try discriminate; split; try reflexivity; lia. }
  clear Hl. unfold located.
  destruct m as [|[p|p|]|p]; try lia; cbn [shr_1 shr_m loc_of_shr_record].
  - (* 0 *) change (0 / 2) with 0. change (0 mod 2) with 0. rewrite Z.mul_0_r, Z.add_0_r.
    split; [reflexivity|].
    destruct S as [[-> E]|[-> E]].
    + rewrite E. reflexivity.
    + destruct (Z.eqb_spec (N mod D) 0); [lia|]. f_equal. symmetry. apply Z.compare_lt_iff. lia.
  - (* xI *)
    assert (E1 : Z.pos p~1 / 2 = Z.pos p).
    { rewrite Pos2Z.inj_xI. rewrite Z.add_comm, Z.mul_comm. rewrite Z.div_add by lia. reflexivity. }
    assert (E2 : Z.pos p~1 mod 2 = 1).
    { rewrite Pos2Z.inj_xI. rewrite Z.add_comm, Z.mul_comm. rewrite Z.mod_add by lia. reflexivity. }
    rewrite E1, E2. split; [reflexivity|].
    destruct (Z.eqb_spec (N mod D + D * 1) 0); [lia|].
    destruct S as [[-> E]|[-> E]]; f_equal; symmetry.
    + apply Z.compare_eq_iff. lia.
    + apply Z.compare_gt_iff. lia.
  - (* xO *)
    assert (E1 : Z.pos p~0 / 2 = Z.pos p).
    { rewrite Pos2Z.inj_xO. rewrite Z.mul_comm. apply Z.div_mul. lia. }
    assert (E2 : Z.pos p~0 mod 2 = 0).
    { rewrite Pos2Z.inj_xO. rewrite Z.mul_comm. apply Z.mod_mul. lia. }
    rewrite E1, E2, Z.mul_0_r, Z.add_0_r. split; [reflexivity|].
    destruct S as [[-> E]|[-> E]].
    + rewrite E. reflexivity.
    + destruct (Z.eqb_spec (N mod D) 0); [lia|]. f_equal. symmetry. apply Z.compare_lt_iff. lia.
  - (* xH *)
    change (1 / 2) with 0. change (1 mod 2) with 1. split; [reflexivity|].
    destruct (Z.eqb_spec (N mod D + D * 1) 0); [lia|].
    destruct S as [[-> E]|[-> E]]; f_equal; symmetry.
    + apply Z.compare_eq_iff. lia.
    + apply Z.compare_gt_iff. lia.
Qed.

Lemma shr_iter_represents (k : nat) (r : shr_record) (N D : Z) :
  0 <= N -> 0 < D -> represents r N D ->
  represents (Nat.iter k shr_1 r) N (D * 2 ^ Z.of_nat k).
Proof.
  intros HN HD H. induction k as [|k IH].
  - cbn [Nat.iter]. change (2 ^ Z.of_nat 0) with 1. rewrite Z.mul_1_r. exact H.
  - cbn [Nat.iter]. rewrite Nat2Z.inj_succ, Z.pow_succ_r by lia.
    replace (D * (2 * 2 ^ Z.of_nat k)) with (2 * (D * 2 ^ Z.of_nat k)) by ring.
    apply shr_1_represents; [lia| |exact IH].
    apply Z.mul_pos_pos; [lia|]. apply Z.pow_pos_nonneg; lia.
Qed.

Lemma round_nearest_even_close (r : shr_record) (N D : Z) :
  0 <= N -> 0 < D -> represents r N D ->
  N / D <= round_nearest_even (shr_m r) (loc_of_shr_record r) <= N / D + 1 /\
  Z.abs (2 * round_nearest_even (shr_m r) (loc_of_shr_record r) * D - 2 * N) <= D /\
  (N mod D = 0 -> round_nearest_even (shr_m r) (loc_of_shr_record r) = N / D).
Proof.
  intros HN HD [Hm Hl]. rewrite Hm, Hl.
  pose proof (Z.mod_pos_bound N D HD) as B.
  pose proof (Z.div_mod N D ltac:(lia)) as E.
  unfold located. destruct (Z.eqb_spec (N mod D) 0) as [Z0|NZ]; cbn [round_nearest_even].
  - split; [lia|]. split; [nia|reflexivity].
  - destruct (Z.compare_spec (2 * (N mod D)) D) as [C|C|C].
    + destruct (Z.even (N / D)); (split; [lia|]); (split; [nia|lia]).
    + split; [lia|]. split; [nia|lia].
    + split; [lia|]. split; [nia|lia].
Qed.

(** ** Rounding to nearest, in any format *)

Section Rounding.
Variables prec emax : Z.
Hypothesis prec_pos : 0 < prec.

Lemma fexp_normal (z : Z) : 3 - emax <= z -> fexp prec emax z = z - prec.
Proof. intros H. unfold fexp, emin. lia. Qed.

(** Rounding a quotient [N / D] whose integer part [p] has at least
    [prec] digits, at exponent [e], in the normal range and below the
    overflow threshold: the result is a normal float within half a unit
    in the last place of [N / D * 2^e]. *)
Lemma round_aux_normal (s : bool) (p : positive) (e N D : Z) :
  0 <= N -> 0 < D -> Zpos p = N / D ->
  prec <= zdigits p -> 3 - emax <= zdigits p + e -> zdigits p + e < emax ->
  exists (m : positive) (e' : Z),
    binary_round_aux prec emax s (Zpos p) e (located (N mod D) D) = S754_finite s m e' /\
    zdigits m = prec /\
    zdigits p + e - prec <= e' <= zdigits p + e - prec + 1 /\
    Z.abs (2 * (Zpos m * 2 ^ (e' - e)) * D - 2 * N) <= 2 ^ (e' - e) * D /\
    (N mod (D * 2 ^ (zdigits p - prec)) = 0 ->
     e' = zdigits p + e - prec /\ Zpos m * 2 ^ (e' - e) * D = N).
Proof.
  intros HN HD Hp Hd Hlo Hhi.
  set (d := zdigits p) in *.
  set (k := d - prec).
  assert (Hk : 0 <= k) by (unfold k; lia).
  pose proof (zdigits_gt p) as G. pose proof (zdigits_le p) as L. fold d in G, L.
  assert (K2 : 0 < 2 ^ k) by (apply Z.pow_pos_nonneg; lia).
  (* the first shift *)
  destruct (loc_of_record_of_loc (Zpos p) (located (N mod D) D)) as [R1 R2].
  assert (R0 : represents (shr_record_of_loc (Zpos p) (located (N mod D) D)) N D).
  { split; [rewrite R2; exact Hp | exact R1]. }
  assert (S1 : exists r1, shr_fexp prec emax (Zpos p) e (located (N mod D) D) = (r1, e + k) /\
                          represents r1 N (D * 2 ^ k)).
  { unfold shr_fexp. cbn [Zdigits2]. change (Z.pos (digits2_pos p)) with d.
    rewrite fexp_normal by lia.
    replace (d + e - prec - e) with k by (unfold k; lia).
    destruct k as [|pk|pk] eqn:Ek; try lia.
    - eexists. split; [cbn [shr]; f_equal; lia|].
      change (2 ^ 0) with 1. rewrite Z.mul_1_r. exact R0.
    - eexists. split; [cbn [shr]; reflexivity|].
      rewrite iter_pos_nat. rewrite <- (positive_nat_Z pk).
      apply shr_iter_represents; assumption. }
  destruct S1 as (r1 & S1 & Rep).
  assert (HD' : 0 < D * 2 ^ k) by (apply Z.mul_pos_pos; lia).
  destruct (round_nearest_even_close r1 N (D * 2 ^ k) HN HD' Rep) as (Rng & Cl & Ex).
  set (m1 := round_nearest_even (shr_m r1) (loc_of_shr_record r1)) in *.
  (* the integer part of the shifted quotient has exactly prec digits *)
  assert (Q : N / (D * 2 ^ k) = Zpos p / 2 ^ k).
  { rewrite Hp. symmetry. apply Z.div_div; lia. }
  assert (B0 : 2 ^ (prec - 1) <= N / (D * 2 ^ k) < 2 ^ prec).
  { rewrite Q. split.
    - apply Z.div_le_lower_bound; [lia|].
      rewrite <- Z.pow_add_r by lia. replace (k + (prec - 1)) with (d - 1) by (unfold k; lia). exact L.
    - apply Z.div_lt_upper_bound; [lia|].
      rewrite <- Z.pow_add_r by lia. replace (k + prec) with d by (unfold k; lia). exact G. }
  assert (P1 : 2 ^ (prec - 1) <= m1 <= 2 ^ prec) by lia.
  assert (P0 : 0 < 2 ^ (prec - 1)) by (apply Z.pow_pos_nonneg; lia).
  unfold binary_round_aux. rewrite S1. fold m1.
  destruct m1 as [|q|q] eqn:Em1; try lia.
  destruct (Z.eq_dec (Zpos q) (2 ^ prec)) as [Top|NotTop].
  - (* the mantissa was rounded up to 2^prec: one more shift, exact *)
    assert (Dq : zdigits q = prec + 1).
    { apply zdigits_eq; [lia|]. replace (prec + 1 - 1) with prec by lia.
      rewrite Z.pow_add_r by lia. lia. }
    unfold shr_fexp. cbn [Zdigits2]. change (Z.pos (digits2_pos q)) with (zdigits q).
    rewrite Dq, fexp_normal by (unfold k; lia).
    replace (prec + 1 + (e + k) - prec - (e + k)) with 1 by lia.
    cbn [shr shr_record_of_loc SpecFloat.iter_pos].
    assert (Eq2 : exists q', q = xO q' /\ Zpos q' = 2 ^ (prec - 1)).
    { destruct q as [q'|q'|].
      - exfalso. rewrite (Pos2Z.inj_xI q') in Top.
        replace prec with (Z.succ (prec - 1)) in Top by lia. rewrite Z.pow_succ_r in Top by lia. lia.
      - exists q'. split; [reflexivity|]. rewrite (Pos2Z.inj_xO q') in Top.
        replace prec with (Z.succ (prec - 1)) in Top at 1 by lia. rewrite Z.pow_succ_r in Top by lia. lia.
      - exfalso. replace prec with (Z.succ (prec - 1)) in Top by lia. rewrite Z.pow_succ_r in Top by lia. lia. }
    destruct Eq2 as (q' & -> & Hq').
    cbn [shr_1 shr_m orb].
    replace (e + k + 1 <=? emax - prec) with true by (symmetry; apply Z.leb_le; unfold k; lia).
    exists q', (e + k + 1). split; [reflexivity|]. split; [|split; [|split]].
    4:{ intros X. fold d in X. fold k in X. specialize (Ex X). lia. }
    + apply zdigits_eq; [lia|]. rewrite Hq'. split; [lia|].
      apply Z.pow_lt_mono_r; lia.
    + unfold k. lia.
    + replace (e + k + 1 - e) with (Z.succ k) by lia. rewrite Z.pow_succ_r by lia.
      rewrite (Pos2Z.inj_xO q') in Cl. 
      replace (2 * (Z.pos q' * (2 * 2 ^ k)) * D) with (2 * (2 * Z.pos q') * (D * 2 ^ k)) by ring.
      eapply Z.le_trans; [exact Cl|]. nia.
  - assert (Dq : zdigits q = prec) by (apply zdigits_eq; lia).
    unfold shr_fexp. cbn [Zdigits2]. change (Z.pos (digits2_pos q)) with (zdigits q).
    rewrite Dq, fexp_normal by (unfold k; lia).
    replace (prec + (e + k) - prec - (e + k)) with 0 by lia.
    cbn [shr shr_record_of_loc shr_m].
    replace (e + k <=? emax - prec) with true by (symmetry; apply Z.leb_le; unfold k; lia).
    exists q, (e + k). split; [reflexivity|]. split; [exact Dq|]. split; [unfold k; lia|].
    replace (e + k - e) with k by lia. split.
    + replace (2 * (Z.pos q * 2 ^ k) * D) with (2 * Z.pos q * (D * 2 ^ k)) by ring.
      rewrite (Z.mul_comm (2 ^ k) D). exact Cl.
    + intros X. fold d in X. fold k in X. split; [unfold k; lia|].
      rewrite (Ex X). pose proof (Z.div_mod N (D * 2 ^ k) ltac:(lia)) as E. rewrite X in E.
      rewrite E at 2. ring.
Qed.

End Rounding.

(** ** Integers, quotients and products in binary64 *)

Lemma located_exact (N : Z) : located (N mod 1) 1 = loc_Exact.
Proof. rewrite Z.mod_1_r. reflexivity. Qed.

Lemma f64_of_Z_canon (v : positive) : zdigits v <= 53 -> f64_of_Z (Zpos v) = f64_canon v.
Proof.
  intros D. pose proof (zdigits_pos v) as D0.
  unfold f64_of_Z, f64_canon. cbn [binary_normalize]. unfold binary_round.
  change (Z.pos (digits2_pos v)) with (zdigits v).
  rewrite (fexp_normal prec64 emax64) by (unfold emax64; lia).
  set (j := Z.to_nat (53 - zdigits v)).
  assert (A : shl_align v 0 (zdigits v + 0 - prec64) = (shl j v, zdigits v - 53)).
  { unfold shl_align, prec64.
    destruct (zdigits v + 0 - 53 - 0) as [|x|x] eqn:E.
    - replace j with 0%nat by lia. cbn [shl Nat.iter]. f_equal. lia.
    - lia.
    - rewrite Pos_iter_shl. unfold j. repeat (f_equal; try lia). }
  rewrite A.
  assert (Ds : zdigits (shl j v) = 53) by (rewrite zdigits_shl; lia).
  destruct (round_aux_normal prec64 emax64 ltac:(reflexivity) false (shl j v) (zdigits v - 53)
              (Zpos (shl j v)) 1) as (m & e' & R & Dm & Be & Cl & Ex).
  - lia.
  - lia.
  - rewrite Z.div_1_r. reflexivity.
  - rewrite Ds. unfold prec64. lia.
  - rewrite Ds. unfold emax64. lia.
  - rewrite Ds. unfold emax64. lia.
  - rewrite located_exact in R. rewrite R.
    destruct Ex as [E1 E2].
    { rewrite Ds. unfold prec64. change (1 * 2 ^ (53 - 53)) with 1. apply Z.mod_1_r. }
    rewrite Ds in E1. unfold prec64 in E1.
    assert (X : e' = zdigits v - 53) by lia. clear E1. subst e'.
    rewrite Z.sub_diag in E2. change (2 ^ 0) with 1 in E2.
    f_equal. apply Pos2Z.inj. lia.
Qed.

Lemma new_location_located (d k : Z) : 0 < d -> 0 <= k < d -> new_location d k = located k d.
Proof.
  intros Hd Hk. unfold new_location, new_location_even, new_location_odd, located.
  destruct (Z.even d) eqn:Ev; [reflexivity|].
  destruct (Z.eqb_spec k 0) as [E|E]; [reflexivity|]. f_equal.
  assert (O : Z.odd d = true) by (rewrite <- Z.negb_even, Ev; reflexivity).
  apply Z.odd_spec in O. destruct O as [x O].
  destruct (Z.compare_spec (2 * k + 1) d); symmetry.
  - apply Z.compare_lt_iff. lia.
  - apply Z.compare_lt_iff. lia.
  - apply Z.compare_gt_iff. lia.
Qed.

Lemma div_eucl_pair (a b : Z) : Z.div_eucl a b = (a / b, a mod b).
Proof. unfold Z.div, Z.modulo. destruct (Z.div_eucl a b). reflexivity. Qed.

Lemma canon_mantissa (p : positive) :
  zdigits p <= 53 ->
  Zpos (shl (Z.to_nat (53 - zdigits p)) p) = Zpos p * 2 ^ (53 - zdigits p) /\
  2 ^ 52 <= Zpos (shl (Z.to_nat (53 - zdigits p)) p) < 2 ^ 53.
Proof.
  intros D. pose proof (zdigits_pos p) as D0. rewrite shl_Z, Z2Nat.id by lia. split; [reflexivity|].
  pose proof (zdigits_gt p) as G. pose proof (zdigits_le p) as L.
  assert (P : 0 < 2 ^ (53 - zdigits p)) by (apply Z.pow_pos_nonneg; lia).
  split.
  - replace 52 with ((zdigits p - 1) + (53 - zdigits p)) by lia.
    rewrite Z.pow_add_r by lia. apply Z.mul_le_mono_nonneg_r; lia.
  - replace 53 with (zdigits p + (53 - zdigits p)) at 2 by lia.
    rewrite Z.pow_add_r by lia. apply Z.mul_lt_mono_pos_r; lia.
Qed.

Lemma mul_pow_cancel (x y g : Z) : 0 < g -> Z.abs (x * g) <= y * g -> Z.abs x <= y.
Proof.
  intros G H. rewrite Z.abs_mul, (Z.abs_eq g) in H by lia.
  apply Z.mul_le_mono_pos_r in H; assumption.
Qed.

(** The quotient of two integers: within half a unit in the last place,
    and exact when the division is. *)
Lemma f64_div_int (w c : positive) :
  zdigits w <= 52 -> zdigits c <= 53 ->
  exists (mr : positive) (a : Z),
    f64_div (f64_canon w) (f64_canon c) = S754_finite false mr (- a) /\
    0 <= a <= 105 /\ zdigits mr = 53 /\
    2 * Z.abs (Zpos mr * Zpos c - Zpos w * 2 ^ a) <= Zpos c /\
    (Zpos w mod Zpos c = 0 -> Zpos mr * Zpos c = Zpos w * 2 ^ a).
Proof.
  intros Dw Dc.
  pose proof (zdigits_pos w) as Pw. pose proof (zdigits_pos c) as Pc.
  destruct (canon_mantissa w ltac:(lia)) as [Vw Bw].
  destruct (canon_mantissa c Dc) as [Vc Bc].
  unfold f64_canon.
  set (mw := shl (Z.to_nat (53 - zdigits w)) w) in *.
  set (mc := shl (Z.to_nat (53 - zdigits c)) c) in *.
  set (e0 := zdigits w - zdigits c - 53).
  set (N := Zpos mw * 2 ^ 53).
  assert (HN : 0 <= N) by (unfold N; lia).
  assert (Q1 : 2 ^ 52 <= N / Zpos mc < 2 ^ 54).
  { split.
    - apply Z.div_le_lower_bound; [lia|]. unfold N.
      change (2 ^ 52) with 4503599627370496 in *. change (2 ^ 53) with 9007199254740992 in *. nia.
    - apply Z.div_lt_upper_bound; [lia|]. unfold N.
      change (2 ^ 52) with 4503599627370496 in *. change (2 ^ 53) with 9007199254740992 in *.
      change (2 ^ 54) with 18014398509481984. nia. }
  destruct (N / Zpos mc) as [|q|q] eqn:Eq; try lia.
  assert (Dq : 53 <= zdigits q <= 54).
  { split; [apply zdigits_lower; lia | apply zdigits_upper; lia]. }
  assert (C : SFdiv_core_binary prec64 emax64 (Zpos mw) (zdigits w - 53) (Zpos mc) (zdigits c - 53)
              = (Zpos q, e0, located (N mod Zpos mc) (Zpos mc))).
  { unfold SFdiv_core_binary. cbn [Zdigits2].
    change (Z.pos (digits2_pos ?p)) with (zdigits p).
    unfold mw, mc. rewrite !zdigits_shl. fold mw mc.
    rewrite (fexp_normal prec64 emax64) by (unfold emax64; lia). unfold prec64.
    replace (Z.min _ _) with e0 by (unfold e0; lia).
    replace (zdigits w - 53 - (zdigits c - 53) - e0) with 53 by (unfold e0; lia).
    cbv beta iota zeta.
    rewrite Z.shiftl_mul_pow2 by lia. fold N.
    rewrite div_eucl_pair, Eq.
    rewrite new_location_located; [reflexivity|lia|].
    apply Z.mod_pos_bound. lia. }
  unfold f64_div, SFdiv. rewrite C. cbn [xorb].
  destruct (round_aux_normal prec64 emax64 ltac:(reflexivity) false q e0 N (Zpos mc))
    as (m & e' & R & Dm & Be & Cl & Ex).
  - exact HN.
  - lia.
  - symmetry. exact Eq.
  - unfold prec64. lia.
  - unfold emax64, e0. lia.
  - unfold emax64, e0. lia.
  - unfold prec64 in *. exists m, (- e'). rewrite Z.opp_involutive.
    split; [exact R|]. split; [unfold e0 in Be; lia|]. split; [exact Dm|].
    set (a := - e'). set (t := e' - e0) in *.
    assert (Ht : 0 <= t) by (unfold t; lia).
    assert (Ha : 0 <= a) by (unfold a, e0 in *; lia).
    set (jc := 53 - zdigits c) in *. set (jw := 53 - zdigits w) in *.
    set (g := 2 ^ (t + jc)).
    assert (G : 0 < g) by (apply Z.pow_pos_nonneg; unfold jc; lia).
    assert (X1 : 2 ^ t * Zpos mc = Zpos c * g).
    { rewrite Vc. unfold g. rewrite Z.pow_add_r by (unfold jc; lia). ring. }
    assert (X2 : N = Zpos w * 2 ^ a * g).
    { unfold N. rewrite Vw. unfold g. rewrite <- !Z.mul_assoc. f_equal.
      rewrite <- !Z.pow_add_r by (unfold jw, jc; lia). f_equal. unfold a, t, e0, jw, jc. lia. }
    split.
    + assert (Z.abs ((2 * (Zpos m * Zpos c) - 2 * (Zpos w * 2 ^ a)) * g) <= Zpos c * g) as Y.
      { rewrite <- X1.
        replace ((2 * (Z.pos m * Z.pos c) - 2 * (Z.pos w * 2 ^ a)) * g)
          with (2 * (Zpos m * (Zpos c * g)) - 2 * (Zpos w * 2 ^ a * g)) by ring.
        rewrite <- X1, <- X2.
        replace (2 * (Z.pos m * (2 ^ t * Z.pos mc))) with (2 * (Z.pos m * 2 ^ t) * Z.pos mc) by ring.
        exact Cl. }
      apply mul_pow_cancel in Y; [|exact G].
      rewrite <- Z.mul_sub_distr_l, Z.abs_mul in Y. exact Y.
    + intros Dv.
      destruct Ex as [_ E2].
      { apply Z.mod_divide in Dv; [|lia]. destruct Dv as [k Dv].
        apply Z.mod_divide; [lia|].
        (* N = k * c * 2^(jw+53), D * 2^(dq-53) = c * 2^jc * 2^(dq - 53) *)
        exists (k * 2 ^ (jw + 53 - jc - (zdigits q - 53))).
        unfold N. rewrite Vw, Vc, Dv.
        replace (k * Z.pos c * 2 ^ jw * 2 ^ 53) with (k * Zpos c * (2 ^ jw * 2 ^ 53)) by ring.
        rewrite <- Z.pow_add_r by (unfold jw; lia).
        replace (k * 2 ^ (jw + 53 - jc - (zdigits q - 53)) * (Z.pos c * 2 ^ jc * 2 ^ (zdigits q - 53)))
          with (k * Zpos c * (2 ^ (jw + 53 - jc - (zdigits q - 53)) * 2 ^ jc * 2 ^ (zdigits q - 53))) by ring.
        rewrite <- !Z.pow_add_r by (unfold jw, jc; lia). do 2 f_equal. lia. }
      fold t in E2. rewrite X2 in E2.
      replace (Z.pos m * 2 ^ t * Z.pos mc) with (Zpos m * (2 ^ t * Zpos mc)) in E2 by ring.
      rewrite X1 in E2.
      apply (Z.mul_cancel_r _ _ g); [lia|]. rewrite <- E2. ring.
Qed.

Lemma pos_le_mul_l (n m : positive) : (m <= n * m)%positive.
Proof.
  assert (H : Z.pos m <= Z.pos (n * m)); [|lia].
  rewrite Pos2Z.inj_mul. rewrite <- (Z.mul_1_l (Z.pos m)) at 1.
  apply Z.mul_le_mono_nonneg_r; lia.
Qed.

(** The product of an integer and a float of 53 digits. *)
Lemma f64_mul_int (n mr : positive) (a : Z) :
  zdigits n <= 53 -> zdigits mr = 53 -> 0 <= a <= 105 ->
  exists (mp : positive) (ep : Z),
    f64_mul (f64_canon n) (S754_finite false mr (- a)) = S754_finite false mp ep /\
    0 <= ep + a /\ zdigits mp = 53 /\
    2 * Z.abs (Zpos mp * 2 ^ (ep + a) - Zpos n * Zpos mr) <= 2 ^ (ep + a) /\
    ((Zpos n * Zpos mr) mod 2 ^ (zdigits (n * mr) - 53) = 0 ->
     Zpos mp * 2 ^ (ep + a) = Zpos n * Zpos mr).
Proof.
  intros Dn Dr Ha.
  pose proof (zdigits_pos n) as Pn.
  destruct (canon_mantissa n Dn) as [Vn Bn].
  pose proof (zdigits_gt mr) as Gr. pose proof (zdigits_le mr) as Lr. rewrite Dr in Gr, Lr.
  change (53 - 1) with 52 in Lr.
  unfold f64_canon.
  set (jn := 53 - zdigits n) in *.
  set (mn := shl (Z.to_nat jn) n) in *.
  assert (Dm : 105 <= zdigits (mn * mr) <= 106).
  { split.
    - apply zdigits_lower. rewrite Pos2Z.inj_mul. change (2 ^ (105 - 1)) with (2 ^ 52 * 2 ^ 52).
      apply Z.mul_le_mono_nonneg; lia.
    - apply zdigits_upper; [lia|]. rewrite Pos2Z.inj_mul. change (2 ^ 106) with (2 ^ 53 * 2 ^ 53).
      apply Z.mul_lt_mono_nonneg; lia. }
  unfold f64_mul, SFmul. cbn [xorb].
  rewrite <- (located_exact (Zpos (mn * mr))).
  destruct (round_aux_normal prec64 emax64 ltac:(reflexivity) false (mn * mr)
              (zdigits n - 53 + - a) (Zpos (mn * mr)) 1)
    as (m & e' & R & Dm' & Be & Cl & Ex).
  - lia.
  - lia.
  - rewrite Z.div_1_r. reflexivity.
  - unfold prec64. lia.
  - unfold emax64. lia.
  - unfold emax64. lia.
  - unfold prec64 in *. exists m, e'. split; [exact R|].
    set (t := e' - (zdigits n - 53 + - a)) in *.
    assert (T : t = e' + a + jn) by (unfold t, jn; lia).
    assert (Hj : 0 <= jn <= 52) by (unfold jn; lia).
    split; [lia|]. split; [exact Dm'|].
    assert (P2 : 2 ^ t = 2 ^ (e' + a) * 2 ^ jn).
    { rewrite T. apply Z.pow_add_r; lia. }
    assert (G : 0 < 2 ^ jn) by (apply Z.pow_pos_nonneg; lia).
    assert (V : Zpos (mn * mr) = Zpos n * Zpos mr * 2 ^ jn).
    { rewrite Pos2Z.inj_mul, Vn. ring. }
    split.
    + assert (Y : Z.abs ((2 * (Zpos m * 2 ^ (e' + a)) - 2 * (Zpos n * Zpos mr)) * 2 ^ jn)
                  <= 2 ^ (e' + a) * 2 ^ jn).
      { rewrite <- P2.
        replace ((2 * (Z.pos m * 2 ^ (e' + a)) - 2 * (Z.pos n * Z.pos mr)) * 2 ^ jn)
          with (2 * (Zpos m * (2 ^ (e' + a) * 2 ^ jn)) - 2 * (Zpos n * Zpos mr * 2 ^ jn)) by ring.
        rewrite <- P2, <- V. rewrite !Z.mul_1_r in Cl. exact Cl. }
      apply mul_pow_cancel in Y; [|exact G].
      rewrite <- Z.mul_sub_distr_l, Z.abs_mul in Y. exact Y.
    + intros Dx.
      destruct Ex as [_ E2].
      { rewrite Z.mul_1_l. apply Z.mod_divide; [apply Z.pow_nonzero; lia|].
        assert (K : zdigits (mn * mr) = zdigits (n * mr) + jn).
        { unfold mn. replace (shl (Z.to_nat jn) n * mr)%positive with (shl (Z.to_nat jn) (n * mr)).
          - rewrite zdigits_shl. lia.
          - apply Pos2Z.inj. rewrite Pos2Z.inj_mul, !shl_Z, Pos2Z.inj_mul. ring. }
        assert (K' : 53 <= zdigits (n * mr)).
        { pose proof (zdigits_mono mr (n * mr) (pos_le_mul_l n mr)). lia. }
        apply Z.mod_divide in Dx; [|apply Z.pow_nonzero; lia]. destruct Dx as [x Dx].
        exists x. rewrite V, Dx, K.
        replace (zdigits (n * mr) + jn - 53) with (zdigits (n * mr) - 53 + jn) by lia.
        rewrite Z.pow_add_r by lia. ring. }
      fold t in E2. rewrite Z.mul_1_r, P2, V in E2.
      apply (Z.mul_cancel_r _ _ (2 ^ jn)); [lia|]. rewrite <- E2. ring.
Qed.

Lemma shiftl_floor (m : positive) (ep a : Z) :
  0 <= a -> 0 <= ep + a -> Z.shiftl (Zpos m) ep = (Zpos m * 2 ^ (ep + a)) / 2 ^ a.
Proof.
  intros Ha He.
  assert (A : 0 < 2 ^ a) by (apply Z.pow_pos_nonneg; lia).
  destruct (Z_le_gt_dec 0 ep) as [P|P].
  - rewrite Z.shiftl_mul_pow2 by lia. rewrite Z.pow_add_r, Z.mul_assoc by lia.
    symmetry. apply Z.div_mul. lia.
  - replace ep with (- (- ep)) at 1 by lia. rewrite Z.shiftl_opp_r, Z.shiftr_div_pow2 by lia.
    replace a with ((- ep) + (ep + a)) at 2 by lia.
    rewrite (Z.pow_add_r 2 (- ep) (ep + a)) by lia.
    symmetry. apply Z.div_mul_cancel_r; apply Z.pow_nonzero; lia.
Qed.

(** ** The arithmetic of the displayed height *)

(** [Mr / A] is the rounded ratio, [Mp * U / A] the rounded product:
    the product is within [1 / c] of [n * w / c]. *)
Lemma display_arith_close (n w c Mr A Mp U : Z) :
  0 < n -> 0 < w -> 0 < c -> n * w <= 2 ^ 51 ->
  2 ^ 52 <= Mr -> 2 ^ 52 <= Mp -> 0 < A -> 0 < U ->
  2 * Z.abs (Mr * c - w * A) <= c ->
  2 * Z.abs (Mp * U - n * Mr) <= U ->
  Z.abs (Mp * U * c - n * w * A) < A.
Proof.
  intros Hn Hw Hc Hnw HMr HMp HA HU H1 H2.
  change (2 ^ 52) with 4503599627370496 in *.
  change (2 ^ 51) with 2251799813685248 in *.
  set (P := Mp * U) in *.
  (* c (2 Mr - 1) <= 2 w A *)
  assert (E1 : c * 9007199254740991 <= 2 * w * A).
  { assert (c * (2 * 4503599627370496) <= c * (2 * Mr)) by (apply Z.mul_le_mono_nonneg_l; lia).
    lia. }
  assert (E2 : n * c * 9007199254740991 <= 4503599627370496 * A).
  { assert (n * (c * 9007199254740991) <= n * (2 * w * A)) by (apply Z.mul_le_mono_nonneg_l; lia).
    assert (2 * (n * w) * A <= 2 * 2251799813685248 * A) by (apply Z.mul_le_mono_nonneg_r; lia).
    lia. }
  assert (E3 : U * 9007199254740991 <= 2 * n * Mr).
  { assert (U * (2 * 4503599627370496) <= U * (2 * Mp)) by (apply Z.mul_le_mono_nonneg_l; lia).
    unfold P in *. lia. }
  assert (E4 : U * c * 9007199254740991 <= 4503599627370496 * A + n * c).
  { assert (U * 9007199254740991 * c <= 2 * n * Mr * c) by (apply Z.mul_le_mono_nonneg_r; lia).
    assert (2 * Mr * c <= 2 * w * A + c) by lia.
    assert (n * (2 * Mr * c) <= n * (2 * w * A + c)) by (apply Z.mul_le_mono_nonneg_l; lia).
    assert (2 * (n * w) * A <= 2 * 2251799813685248 * A) by (apply Z.mul_le_mono_nonneg_r; lia).
    lia. }
  assert (E5 : 2 * Z.abs (P * c - n * w * A) <= U * c + n * c).
  { assert (X1 : 2 * Z.abs (P - n * Mr) * c <= U * c) by (apply Z.mul_le_mono_nonneg_r; lia).
    assert (X2 : n * (2 * Z.abs (Mr * c - w * A)) <= n * c) by (apply Z.mul_le_mono_nonneg_l; lia).
    replace (P * c - n * w * A) with ((P - n * Mr) * c + n * (Mr * c - w * A)) by ring.
    pose proof (Z.abs_triangle ((P - n * Mr) * c) (n * (Mr * c - w * A))) as T.
    rewrite !Z.abs_mul in T. rewrite (Z.abs_eq c), (Z.abs_eq n) in T by lia.
    lia. }
  assert (0 < n * c) by (apply Z.mul_pos_pos; lia).
  assert (0 < U * c) by (apply Z.mul_pos_pos; lia).
  lia.
Qed.

Lemma display_arith (n w c P A : Z) :
  0 < n -> 0 < w -> 0 < c -> 0 < A -> 0 <= P ->
  Z.abs (P * c - n * w * A) < A ->
  P / A = n * w / c \/ ((n * w) mod c = 0 /\ P / A = n * w / c - 1).
Proof.
  intros Hn Hw Hc HA HP H.
  pose proof (Z.div_mod P A ltac:(lia)) as DP. pose proof (Z.mod_pos_bound P A HA) as BP.
  pose proof (Z.div_mod (n * w) c ltac:(lia)) as DQ. pose proof (Z.mod_pos_bound (n * w) c Hc) as BQ.
  set (h := P / A) in *. set (q := n * w / c) in *. set (r := (n * w) mod c) in *.
  set (x := P mod A) in *.
  assert (Hq : 0 <= q) by (apply Z.div_pos; [apply Z.mul_nonneg_nonneg|]; lia).
  assert (Hh : 0 <= h) by (apply Z.div_pos; lia).
  (* (h - q) * c * A is within (-(c+1) A, (c + 1) A)  *)
  assert (L : q - 1 <= h <= q) .
  { split.
    - destruct (Z_lt_le_dec h (q - 1)) as [C|C]; [exfalso|lia].
      assert (h + 2 <= q) by lia.
      assert (P < (h + 1) * A) by lia.
      assert ((h + 2) * c <= q * c) by (apply Z.mul_le_mono_nonneg_r; lia).
      assert (P * c < (h + 1) * A * c) by (apply Z.mul_lt_mono_pos_r; lia).
      assert ((h + 2) * c * A <= n * w * A) by (apply Z.mul_le_mono_nonneg_r; lia).
      assert (A <= c * A) by (rewrite <- (Z.mul_1_l A) at 1; apply Z.mul_le_mono_nonneg_r; lia).
      lia.
    - destruct (Z_lt_le_dec q h) as [C|C]; [exfalso|lia].
      assert (q + 1 <= h) by lia.
      assert ((q + 1) * A <= h * A) by (apply Z.mul_le_mono_nonneg_r; lia).
      assert ((q + 1) * A * c <= P * c) by (apply Z.mul_le_mono_nonneg_r; lia).
      assert (n * w + 1 <= (q + 1) * c) by lia.
      assert ((n * w + 1) * A <= (q + 1) * c * A) by (apply Z.mul_le_mono_nonneg_r; lia).
      lia. }
  destruct (Z.eq_dec h q) as [E|E]; [left; exact E|right].
  assert (E' : h = q - 1) by lia. split; [|exact E'].
  destruct (Z.eq_dec r 0) as [R|R]; [exact R|exfalso].
  assert (P < q * A) by (rewrite DP, E'; lia).
  assert (P * c < q * A * c) by (apply Z.mul_lt_mono_pos_r; lia).
  assert (c * q + 1 <= n * w) by lia.
  assert ((c * q + 1) * A <= n * w * A) by (apply Z.mul_le_mono_nonneg_r; lia).
  lia.
Qed.

(* ================================================================== *)
(** * Running [show_image] *)

Lemma f64_of_Z_pos (z : Z) :
  0 < z < 2 ^ 53 -> f64_of_Z z = f64_canon (Z.to_pos z) /\ zdigits (Z.to_pos z) <= 53.
Proof.
  intros H. destruct z as [|p|p]; try lia. cbn [Z.to_pos].
  assert (D : zdigits p <= 53) by (apply zdigits_upper; lia).
  split; [apply f64_of_Z_canon; exact D | exact D].
Qed.

Lemma py_float_pos (z : Z) : 0 < z < 2 ^ 53 -> py_float z = retW (f64_of_Z z).
Proof.
  intros H. unfold py_float. destruct (f64_of_Z_pos z H) as [-> _]. reflexivity.
Qed.

(** The ratio [r] *)
Lemma scale_ratio_close (width : Z) (cols : nat) :
  0 < width < 2 ^ 31 -> (0 < cols)%nat -> Z.of_nat cols < 2 ^ 53 ->
  exists (mr : positive) (a : Z),
    scale_ratio width cols = S754_finite false mr (- a) /\
    0 <= a <= 105 /\ zdigits mr = 53 /\
    2 * Z.abs (Zpos mr * Z.of_nat cols - width * 2 ^ a) <= Z.of_nat cols /\
    (width mod Z.of_nat cols = 0 -> Zpos mr * Z.of_nat cols = width * 2 ^ a).
Proof.
  intros Hw Hc Bc.
  destruct (f64_of_Z_pos (Z.of_nat cols) ltac:(lia)) as [Fc Dc].
  destruct (f64_of_Z_pos width ltac:(lia)) as [Fw _].
  assert (Dw : zdigits (Z.to_pos width) <= 52).
  { apply zdigits_upper; [lia|]. rewrite Z2Pos.id by lia. lia. }
  destruct (f64_div_int (Z.to_pos width) (Z.to_pos (Z.of_nat cols)) Dw Dc)
    as (mr & a & Ediv & Ha & Dr & Cl & Ex).
  rewrite !Z2Pos.id in Cl, Ex by lia.
  exists mr, a. unfold scale_ratio. rewrite Fw, Fc. auto.
Qed.

Lemma display_height_spec (width : Z) (rows cols : nat) :
  (0 < cols)%nat -> Z.of_nat cols < 2 ^ 53 -> 0 < width < 2 ^ 31 ->
  Z.of_nat rows * width < 2 ^ 31 ->
  py_int (f64_mul (f64_of_Z (Z.of_nat rows)) (scale_ratio width cols))
    = retW (display_height width rows cols) /\
  (display_height width rows cols = Z.of_nat rows * width / Z.of_nat cols \/
   ((Z.of_nat rows * width) mod Z.of_nat cols = 0 /\
    display_height width rows cols = Z.of_nat rows * width / Z.of_nat cols - 1)) /\
  (width mod Z.of_nat cols = 0 ->
   display_height width rows cols = Z.of_nat rows * (width / Z.of_nat cols)).
Proof.
  intros Hc Bc Hw Bn.
  destruct (scale_ratio_close width cols Hw Hc Bc) as (mr & a & Er & Ha & Dr & Cl & Ex).
  unfold display_height. rewrite Er.
  destruct (Nat.eq_dec rows 0%nat) as [->|Hr].
  { change (f64_of_Z (Z.of_nat 0)) with (S754_zero false).
    cbn [f64_mul SFmul py_int]. change (Z.of_nat 0) with 0.
    rewrite !Z.mul_0_l, Z.div_0_l by lia. auto. }
  destruct (f64_of_Z_pos (Z.of_nat rows) ltac:(lia)) as [Fn Dn]. rewrite Fn.
  destruct (f64_mul_int (Z.to_pos (Z.of_nat rows)) mr a Dn Dr Ha) as (mp & ep & Emul & Hep & Dp & Cm & Em).
  rewrite Emul. cbn [py_int cond_Zopp].
  rewrite Z2Pos.id in Cm, Em by lia.
  set (n := Z.of_nat rows) in *. set (c := Z.of_nat cols) in *.
  set (A := 2 ^ a) in *. set (U := 2 ^ (ep + a)) in *.
  assert (Hn : 0 < n) by (unfold n; lia).
  assert (PA : 0 < A) by (apply Z.pow_pos_nonneg; lia).
  assert (PU : 0 < U) by (apply Z.pow_pos_nonneg; lia).
  pose proof (zdigits_le mr) as Lr. rewrite Dr in Lr. change (53 - 1) with 52 in Lr.
  pose proof (zdigits_le mp) as Lp. rewrite Dp in Lp. change (53 - 1) with 52 in Lp.
  assert (Close : Z.abs (Zpos mp * U * c - n * width * A) < A).
  { apply (display_arith_close n width c (Zpos mr) A (Zpos mp) U); lia. }
  set (height := Z.shiftl (Zpos mp) ep).
  assert (Hh : height = (Zpos mp * U) / A) by (apply shiftl_floor; lia).
  pose proof (display_arith n width c (Zpos mp * U) A Hn ltac:(lia) ltac:(lia) PA
                ltac:(lia) Close) as Ch.
  rewrite <- Hh in Ch.
  split; [reflexivity|]. split; [exact Ch|].
  (* the quotient width / cols is an integer: nothing is rounded *)
  intros Dv. specialize (Ex Dv).
  assert (Dv' : width = c * (width / c)).
  { pose proof (Z.div_mod width c ltac:(lia)) as X. rewrite Dv in X. lia. }
  set (q := width / c) in *.
  assert (Hq : 0 < q).
  { destruct (Z_lt_le_dec 0 q) as [L|L]; [exact L|].
    assert (c * q <= 0) by (apply Z.mul_nonneg_nonpos; lia). lia. }
  assert (Mq : Zpos mr = q * A).
  { apply (Z.mul_cancel_r _ _ c); [lia|]. rewrite Ex. rewrite Dv' at 1. ring. }
  assert (Bq : n * q < 2 ^ 53).
  { assert (q <= width) by (apply Z.div_le_upper_bound; [lia|];
                            rewrite <- (Z.mul_1_l width) at 1; apply Z.mul_le_mono_nonneg_r; lia).
    assert (n * q <= n * width) by (apply Z.mul_le_mono_nonneg_l; lia).
    change (2 ^ 53) with 9007199254740992. change (2 ^ 31) with 2147483648 in *. lia. }
  assert (Dlo : 53 <= zdigits (Z.to_pos n * mr)).
  { pose proof (zdigits_mono mr (Z.to_pos n * mr) (pos_le_mul_l (Z.to_pos n) mr)). lia. }
  assert (Dhi : zdigits (Z.to_pos n * mr) <= 53 + a).
  { apply zdigits_upper; [lia|]. rewrite Pos2Z.inj_mul, Z2Pos.id, Mq by lia.
    rewrite Z.pow_add_r by lia. fold A. rewrite Z.mul_assoc.
    apply Z.mul_lt_mono_pos_r; lia. }
  assert (Exact : Zpos mp * U = n * Zpos mr).
  { apply Em. apply Z.mod_divide; [apply Z.pow_nonzero; lia|].
    exists (n * q * 2 ^ (a - (zdigits (Z.to_pos n * mr) - 53))).
    rewrite Mq. unfold A. rewrite <- !Z.mul_assoc. do 2 f_equal.
    rewrite <- Z.pow_add_r by lia. f_equal. lia. }
  rewrite Hh, Exact, Mq, Z.mul_assoc. apply Z.div_mul. lia.
Qed.

Lemma py_truediv_finite (x y : float64) :
  f32_is_nonzero y = true -> py_truediv x y = retW (f64_div x y).
Proof. destruct y; try discriminate. reflexivity. Qed.

Lemma fits_int_true (z : Z) : - 2 ^ 31 <= z < 2 ^ 31 -> fits_int z = true.
Proof.
  intros H. unfold fits_int. apply andb_true_intro. split; [apply Z.leb_le|apply Z.ltb_lt]; lia.
Qed.

Lemma resize_imshow resize_area title image width height (h : list ndarray) ws rows cols d :
  h !! image = Some (Img8 rows cols d) ->
  (0 < cols)%nat -> 0 < width < 2 ^ 31 -> - 2 ^ 31 <= height < 2 ^ 31 ->
  (rows = 0%nat -> height <= 0) ->
  (resized <~ resize resize_area image (width, height) ;; imshow title resized) (World h ws)
  = shown resize_area title rows cols d width height (World h ws).
Proof.
  intros Hi Hc Hw Hh H0.
  unfold bindW at 1. unfold resize. unfold bindW at 1. unfold lift at 1, load.
  cbn [arrays windows]. rewrite Hi.
  rewrite (fits_int_true width), (fits_int_true height) by lia. cbn [andb negb].
  unfold shown.
  destruct (height <=? 0) eqn:E.
  { rewrite !orb_true_r. reflexivity. }
  apply Z.leb_gt in E.
  rewrite (is_empty_false rows cols) by nia. cbn [orb].
  replace (width <=? 0) with false by (symmetry; apply Z.leb_gt; lia). cbn [orb].
  unfold lift, alloc. cbn [arrays windows].
  unfold imshow. unfold bindW, lift, load. cbn [arrays windows].
  rewrite list_lookup_middle by reflexivity.
  rewrite (is_empty_false (Z.to_nat height) (Z.to_nat width)) by nia.
  reflexivity.
Qed.

Lemma show_image_run resize_area title image width (h : list ndarray) ws rows cols d :
  h !! image = Some (Img8 rows cols d) ->
  (0 < cols)%nat -> Z.of_nat cols < 2 ^ 53 -> 0 < width < 2 ^ 31 ->
  Z.of_nat rows * width < 2 ^ 31 ->
  show_image resize_area title image width (World h ws)
  = shown resize_area title rows cols d width (display_height width rows cols) (World h ws).
Proof.
  intros Hi Hc Bc Hw Bn.
  destruct (display_height_spec width rows cols Hc Bc Hw Bn) as (Ei & Ch & _).
  destruct (scale_ratio_close width cols Hw Hc Bc) as (mr & a & Er & _).
  unfold show_image. unfold bindW at 1. unfold lift, load. cbn [arrays windows]. rewrite Hi.
  unfold bindW at 1. rewrite (py_float_pos (Z.of_nat cols)) by lia. unfold retW at 1.
  unfold bindW at 1. rewrite (py_float_pos width) by lia. unfold retW at 1.
  unfold bindW at 1. rewrite py_truediv_finite.
  2:{ destruct (f64_of_Z_pos (Z.of_nat cols) ltac:(lia)) as [-> _]. reflexivity. }
  fold (scale_ratio width cols). unfold retW at 1.
  assert (Q : 0 <= Z.of_nat rows * width / Z.of_nat cols <= Z.of_nat rows * width)
    by (split; [apply Z.div_pos; [apply Z.mul_nonneg_nonneg|]; lia
               | apply Z.div_le_upper_bound; [lia|];
                 rewrite <- (Z.mul_1_l (Z.of_nat rows * width)) at 1;
                 apply Z.mul_le_mono_nonneg_r; [apply Z.mul_nonneg_nonneg|]; lia]).
  destruct (Nat.eq_dec rows 0%nat) as [R0|R0].
  - subst rows. unfold bindW at 1. change (py_float (Z.of_nat 0)) with (@retW float64 (f64_of_Z 0)).
    unfold retW at 1. unfold bindW at 1. change (f64_of_Z 0) with (f64_of_Z (Z.of_nat 0)).
    rewrite Ei. unfold retW at 1.
    apply (resize_imshow resize_area title image width _ h ws 0%nat cols d Hi Hc Hw).
    + change (Z.of_nat 0) with 0 in *. rewrite Z.mul_0_l, Z.div_0_l in * by lia. lia.
    + intros _. change (Z.of_nat 0) with 0 in *. rewrite Z.mul_0_l, Z.div_0_l in * by lia. lia.
  - unfold bindW at 1. rewrite (py_float_pos (Z.of_nat rows)) by lia. unfold retW at 1.
    unfold bindW at 1. rewrite Ei. unfold retW at 1.
    apply (resize_imshow resize_area title image width _ h ws rows cols d Hi Hc Hw); lia.
Qed.

Lemma shown_positive resize_area title rows cols d width height wd :
  0 < height ->
  shown resize_area title rows cols d width height wd
  = (Done tt, World (arrays wd ++ [resized_to resize_area rows cols d width height])
                    (put_window title (resized_to resize_area rows cols d width height)
                                (windows wd))).
Proof.
  intros H. unfold shown. replace (height <=? 0) with false by (symmetry; apply Z.leb_gt; lia).
  reflexivity.
Qed.




(* ================================================================== *)
(** * The claims of the specification *)

(** C1 (code defect).  The specification remaps a target value with
    the factor sourceStd / targetStd.  The notebook multiplies the
    centred value with targetStd / sourceStd, the inverse ratio, while
    it subtracts the target mean and adds the source mean as the
    specification says.  On a target plane [0, 4] (mean 2, deviation 2)
    and a source plane [1, 3] (mean 2, deviation 1) the notebook's
    factor is 2 and the remapped plane is [-2, 6]; the specification's
    formula gives [1, 3].  The last line runs [color_transfer] on two
    images with these L planes: the plane it adds the source mean to
    (the sixteenth array on the heap) is [-2, 6]. *)
Theorem remap_scales_by_target_over_source :
  let src := map f32_of_Z [1; 3] in
  let tar := map f32_of_Z [0; 4] in
  (np_mean src, np_std src) = (f32_of_Z 2, f32_of_Z 1) /\
  (np_mean tar, np_std tar) = (f32_of_Z 2, f32_of_Z 2) /\
  scale_factor (np_std tar) (np_std src) = f32_of_Z 2 /\
  remapped src tar = map f32_of_Z [-2; 6] /\
  map (spec_remap (np_mean tar) (np_std tar) (np_mean src) (np_std src)) tar
    = map f32_of_Z [1; 3] /\
  snd (color_transfer cvt_id x00 0%nat 1%nat lab_pair) !! 15%nat
    = Some (Chan32 1 2 (map f32_of_Z [-2; 6])).
Proof. vm_compute. repeat split. Qed.




(** C3, as stated, fails.  For a 2 x 2 target of RGB (100,100,100) and
    a 2 x 2 source of RGB (200,50,50), whatever OpenCV's conversion is,
    no value handed to the final conversion is a number: all are NaN,
    none is the source's mean.  With a conversion that leaves pixels as
    they are and a cast that turns NaN into 0, the image returned is
    black, not the source's colour. *)
Lemma flat_images_counterexample :
  (~ exists cvt p,
       In p (merged cvt (repeat (bgr 200 50 50) 4) (repeat (bgr 100 100 100) 4)) /\
       (f32_is_nan (fst (fst p)) = false \/ f32_is_nan (snd (fst p)) = false \/
        f32_is_nan (snd p) = false)) /\
  transfer_result cvt_id x00 [red_2x2; gray_2x2] 0%nat 1%nat
    = Some (Img8 2 2 (repeat (bgr 0 0 0) 4)) /\
  bgr 0 0 0 <> bgr 200 50 50.
Proof.
  split; [|split].
  - intros (cvt & p & Hin & Hp).
    rewrite merged_uniform in Hin by (cbn; lia).
    apply repeat_spec in Hin. subst p. cbn in Hp. intuition discriminate.
  - vm_compute. reflexivity.
  - discriminate.
Qed.

(** C3, amended.  For those two images [color_transfer] returns a
    uniform 2 x 2 image; every L*a*b* value handed to the final
    conversion is NaN (the scale factor is 0/0), so every returned
    pixel is the conversion of (n, n, n), where n is what the cast to
    uint8 makes of NaN.  It does not depend on the source's colour. *)
Theorem flat_images_transfer cvt nan (h : heap) (source target : loc) :
  h !! source = Some red_2x2 -> h !! target = Some gray_2x2 ->
  transfer_result cvt nan h source target
    = Some (Img8 2 2 (repeat (cvt COLOR_LAB2BGR (nan, nan, nan)) 4)) /\
  merged cvt (repeat (bgr 200 50 50) 4) (repeat (bgr 100 100 100) 4)
    = repeat (S754_nan, S754_nan, S754_nan) 4.
Proof.
  intros Hs Ht. split.
  - rewrite (transfer_result_run cvt nan h source target 2 2 _ 2 2 _ Hs Ht) by (cbn; lia).
    rewrite transferred_uniform by (cbn; lia). reflexivity.
  - apply merged_uniform; cbn; lia.
Qed.

Lemma flat_images_transfer_witness :
  transfer_result cvt_id x00 [red_2x2; gray_2x2] 0%nat 1%nat
    = Some (Img8 2 2 (repeat (cvt_id COLOR_LAB2BGR (x00, x00, x00)) 4)).
Proof.
  exact (proj1 (flat_images_transfer cvt_id x00 [red_2x2; gray_2x2] 0%nat 1%nat eq_refl eq_refl)).
Defined.











(** C8.  For a non-empty source and a non-empty target, [color_transfer]
    returns an 8-bit image with the rows, the columns and the number of
    pixels of the target, whatever the shape of the source. *)
Theorem transfer_keeps_target_shape cvt nan (h : heap) source target rs cs ds rt ct dt :
  h !! source = Some (Img8 rs cs ds) -> h !! target = Some (Img8 rt ct dt) ->
  (rs * cs)%nat <> 0%nat -> (rt * ct)%nat <> 0%nat ->
  exists d', transfer_result cvt nan h source target = Some (Img8 rt ct d') /\
             length d' = length dt.
Proof.
  intros Hs Ht Es Et. exists (transferred cvt nan ds dt). split.
  - apply (transfer_result_run cvt nan h source target rs cs ds rt ct dt); assumption.
  - apply transferred_length.
Qed.

Lemma transfer_keeps_target_shape_witness :
  exists d', transfer_result cvt_id x00 [white_1x1; gray_2x2] 0%nat 1%nat = Some (Img8 2 2 d') /\
             length d' = 4%nat.
Proof.
  apply (transfer_keeps_target_shape cvt_id x00 [white_1x1; gray_2x2] 0%nat 1%nat 1%nat 1%nat [bgr 255 255 255]
           2%nat 2%nat (repeat (bgr 100 100 100) 4)).
  - reflexivity.
  - reflexivity.
  - discriminate.
  - discriminate.
Defined.

(** C9.  Whatever [source] and [target] refer to, a call of
    [color_transfer] leaves every array that was on the heap before the
    call as it was, the source and the target among them, also when it
    raises; and the array it returns is a new one: its reference was
    not allocated before the call. *)
Theorem inputs_unchanged cvt nan (h : heap) (source target : loc) :
  (forall l a, h !! l = Some a ->
               snd (color_transfer cvt nan source target h) !! l = Some a) /\
  (forall r, fst (color_transfer cvt nan source target h) = Ok r ->
             h !! r = None /\
             exists a, snd (color_transfer cvt nan source target h) !! r = Some a).
Proof.
  destruct (color_transfer_heap cvt nan h source target) as (news & E & R).
  rewrite E. split.
  - intros l a H. apply lookup_old. exact H.
  - intros r Hr. destruct (R r Hr) as [-> L]. split.
    + apply lookup_ge_None. lia.
    + rewrite lookup_new. apply lookup_lt_is_Some. lia.
Qed.



(* ================================================================== *)
(** * Further properties of the two functions *)







(** X4.  Whenever [image_stats] returns, none of the three standard
    deviations it returns is negative or -0: each is +0, a positive
    number, +infinity or NaN, whatever float32 values the image holds. *)
Theorem deviations_not_negative (h : heap) image s (ch : nat) :
  fst (image_stats image h) = Ok s ->
  f32_signbit (snd (stats_channel ch s)) = false.
Proof.
  intros H. destruct (image_stats_cases h image s H) as (r & c & d & _ & _ & ->).
  destruct ch as [|[|ch]]; cbn [stats_channel snd]; apply np_std_signbit.
Qed.

Lemma deviations_not_negative_witness :
  f32_signbit (snd (stats_channel 0
     (f32_of_Z 1, f32_of_Z 1, f32_of_Z 5, f32_zero, f32_of_Z 8, f32_of_Z 1))) = false.
Proof.
  exact (deviations_not_negative
           [Img32 1 2 [(f32_of_Z 0, f32_of_Z 5, f32_of_Z 7); (f32_of_Z 2, f32_of_Z 5, f32_of_Z 9)]]
           0%nat _ 0%nat eq_refl).
Defined.

(** X5.  The source enters the result through its six statistics only:
    if [image_stats] returns the same tuple for the float32 L*a*b*
    versions of two non-empty sources, of whatever shapes, then
    [color_transfer] returns the same image for both, given the same
    target. *)
Theorem source_enters_through_statistics cvt nan (h1 h2 : heap) s1 s2 t1 t2
    rs1 cs1 ds1 rs2 cs2 ds2 rt ct dt :
  h1 !! s1 = Some (Img8 rs1 cs1 ds1) -> h1 !! t1 = Some (Img8 rt ct dt) ->
  h2 !! s2 = Some (Img8 rs2 cs2 ds2) -> h2 !! t2 = Some (Img8 rt ct dt) ->
  (rs1 * cs1)%nat <> 0%nat -> (rs2 * cs2)%nat <> 0%nat -> (rt * ct)%nat <> 0%nat ->
  fst (image_stats 0%nat [Img32 rs1 cs1 (lab32 cvt ds1)])
    = fst (image_stats 0%nat [Img32 rs2 cs2 (lab32 cvt ds2)]) ->
  transfer_result cvt nan h1 s1 t1 = transfer_result cvt nan h2 s2 t2.
Proof.
  intros Hs1 Ht1 Hs2 Ht2 E1 E2 Et St.
  rewrite (transfer_result_run cvt nan h1 s1 t1 rs1 cs1 ds1 rt ct dt Hs1 Ht1 E1 Et).
  rewrite (transfer_result_run cvt nan h2 s2 t2 rs2 cs2 ds2 rt ct dt Hs2 Ht2 E2 Et).
  pose proof (image_stats_spec [Img32 rs1 cs1 (lab32 cvt ds1)] [] 0%nat rs1 cs1 (lab32 cvt ds1)
                eq_refl (is_empty_false _ _ E1)) as R1.
  pose proof (image_stats_spec [Img32 rs2 cs2 (lab32 cvt ds2)] [] 0%nat rs2 cs2 (lab32 cvt ds2)
                eq_refl (is_empty_false _ _ E2)) as R2.
  cbn [app] in R1, R2. rewrite R1, R2 in St. cbn [fst] in St.
  injection St as M0 S0 M1 S1 M2 S2.
  do 2 f_equal. unfold transferred. do 2 f_equal.
  rewrite !merged_pixelwise. unfold transfer_value.
  rewrite M0, S0, M1, S1, M2, S2. reflexivity.
Qed.

Lemma source_enters_through_statistics_witness :
  transfer_result cvt_id x00 lab_pair 0%nat 1%nat
  = transfer_result cvt_id x00
      [ Img8 2 1 [(byte_of_Z 3, byte_of_Z 30, byte_of_Z 40); (byte_of_Z 1, byte_of_Z 10, byte_of_Z 20)];
        Img8 1 2 [(byte_of_Z 0, byte_of_Z 50, byte_of_Z 60); (byte_of_Z 4, byte_of_Z 70, byte_of_Z 61)] ]
      0%nat 1%nat.
Proof.
  exact (source_enters_through_statistics cvt_id x00 lab_pair
           [ Img8 2 1 [(byte_of_Z 3, byte_of_Z 30, byte_of_Z 40); (byte_of_Z 1, byte_of_Z 10, byte_of_Z 20)];
             Img8 1 2 [(byte_of_Z 0, byte_of_Z 50, byte_of_Z 60); (byte_of_Z 4, byte_of_Z 70, byte_of_Z 61)] ]
           0%nat 0%nat 1%nat 1%nat
           1%nat 2%nat [(byte_of_Z 1, byte_of_Z 10, byte_of_Z 20); (byte_of_Z 3, byte_of_Z 30, byte_of_Z 40)]
           2%nat 1%nat [(byte_of_Z 3, byte_of_Z 30, byte_of_Z 40); (byte_of_Z 1, byte_of_Z 10, byte_of_Z 20)]
           1%nat 2%nat [(byte_of_Z 0, byte_of_Z 50, byte_of_Z 60); (byte_of_Z 4, byte_of_Z 70, byte_of_Z 61)]
           eq_refl eq_refl eq_refl eq_refl
           ltac:(discriminate) ltac:(discriminate) ltac:(discriminate) eq_refl).
Defined.

(** X6.  The two casts of [color_transfer] lose nothing on their own:
    [astype("float32")] of an 8-bit image followed by [astype("uint8")]
    yields an array with the bytes of the original, whatever the
    platform makes of NaN; both casts allocate, neither changes the
    original. *)
Theorem uint8_float32_roundtrip (nan : byte) (h : heap) (src : loc) r c d :
  h !! src = Some (Img8 r c d) ->
  (x <- astype_float32 src ;; astype_uint8 nan x) h
  = (Ok (S (length h)), h ++ [Img32 r c (map pixel_to_float32 d); Img8 r c d]).
Proof.
  intros H. apply run_from_nil.
  step_with astype_float32_spec.
  eapply eq_trans; [apply astype_uint8_spec; find_cell|].
  cbn [length app Nat.add]. rewrite map_map.
  replace (map (fun p => pixel_to_uint8 nan (pixel_to_float32 p)) d) with d.
  - f_equal. f_equal. lia.
  - symmetry. erewrite map_ext; [apply map_id|]. intros p. apply pixel_roundtrip.
Qed.

Lemma uint8_float32_roundtrip_witness :
  (x <- astype_float32 0%nat ;; astype_uint8 x07 x) [white_1x1]
  = (Ok 2%nat, [white_1x1; Img32 1 1 (map pixel_to_float32 [bgr 255 255 255]); white_1x1]).
Proof.
  exact (uint8_float32_roundtrip x07 [white_1x1] 0%nat 1%nat 1%nat [bgr 255 255 255] eq_refl).
Defined.


(** X8.  [image_stats] on a single plane (a grey-scale float32 image):
    [cv2.split] yields one plane, the assignment to [(l, a, b)] raises
    [ValueError], and the plane split off stays allocated (none for an
    empty image). *)
Theorem image_stats_single_plane (h : heap) image r c d :
  h !! image = Some (Chan32 r c d) ->
  image_stats image h = (Raise ValueError, if is_empty r c then h else h ++ [Chan32 r c d]).
Proof.
  intros H. unfold image_stats, split.
  rewrite bind_assoc. rewrite (bind_Ok _ _ _ _ _ (load_spec _ _ _ H)).
  destruct (is_empty r c); reflexivity.
Qed.

Lemma image_stats_single_plane_witness :
  image_stats 0%nat [Chan32 1 2 [f32_of_Z 3; f32_of_Z 4]]
  = (Raise ValueError, [Chan32 1 2 [f32_of_Z 3; f32_of_Z 4]; Chan32 1 2 [f32_of_Z 3; f32_of_Z 4]]).
Proof.
  exact (image_stats_single_plane [Chan32 1 2 [f32_of_Z 3; f32_of_Z 4]] 0%nat 1%nat 2%nat
           [f32_of_Z 3; f32_of_Z 4] eq_refl).
Defined.

(* ================================================================== *)
(** * Properties of the display *)

(** X9.  What [show_image] displays.  For an 8-bit image of [rows] x
    [cols] pixels, [cols > 0], and a width with [rows * width < 2^31],
    [show_image] passes [(width, height)] to [cv2.resize], where
    [height = int(rows * (width / float(cols)))] in binary64 is the
    integer part of [rows * width / cols], or one less than that when
    [rows * width / cols] is a whole number (the quotient [width /
    cols] was rounded down).  If the height is positive the resized
    image, [height] x [width], is the one new array, and the window
    [title] shows it; otherwise [cv2.resize] raises [cv2_error] and
    nothing changes.  (A 39 x 39 image is shown 719 pixels high at
    width 720.) *)
Theorem show_image_displays resize_area title image width (wd : world) rows cols d :
  arrays wd !! image = Some (Img8 rows cols d) ->
  (0 < cols)%nat -> Z.of_nat cols < 2 ^ 53 -> 0 < width < 2 ^ 31 ->
  Z.of_nat rows * width < 2 ^ 31 ->
  show_image resize_area title image width wd
    = shown resize_area title rows cols d width (display_height width rows cols) wd /\
  (display_height width rows cols = Z.of_nat rows * width / Z.of_nat cols \/
   ((Z.of_nat rows * width) mod Z.of_nat cols = 0 /\
    display_height width rows cols = Z.of_nat rows * width / Z.of_nat cols - 1)).
Proof.
  intros Hi Hc Bc Hw Bn. destruct wd as [h ws]. cbn [arrays] in Hi. split.
  - apply show_image_run; assumption.
  - apply (display_height_spec width rows cols Hc Bc Hw Bn).
Qed.

Lemma show_image_displays_witness :
  let wd := World [Img8 39 39 (repeat (bgr 10 20 30) 1521)] [] in
  show_image resize_nearest "Source"%string 0%nat 720 wd
    = shown resize_nearest "Source"%string 39 39 (repeat (bgr 10 20 30) 1521) 720 719 wd /\
  (719 = Z.of_nat 39 * 720 / Z.of_nat 39 \/
   ((Z.of_nat 39 * 720) mod Z.of_nat 39 = 0 /\ 719 = Z.of_nat 39 * 720 / Z.of_nat 39 - 1)).
Proof.
  exact (show_image_displays resize_nearest "Source"%string 0%nat 720
           (World [Img8 39 39 (repeat (bgr 10 20 30) 1521)] []) 39%nat 39%nat
           (repeat (bgr 10 20 30) 1521) eq_refl ltac:(lia) ltac:(cbn; lia) ltac:(lia)
           ltac:(cbn; lia)).
Defined.

(** X10.  An image more than [width] times as wide as it is high
    ([rows * width < cols], an image without rows included) cannot be
    shown: the height computed is not positive, [cv2.resize] raises
    [cv2_error], no array is allocated and no window opened. *)
Theorem show_image_rejects_strip resize_area title image width (wd : world) rows cols d :
  arrays wd !! image = Some (Img8 rows cols d) ->
  Z.of_nat cols < 2 ^ 31 -> 0 < width < 2 ^ 31 ->
  Z.of_nat rows * width < Z.of_nat cols ->
  show_image resize_area title image width wd = (Fail (Exn cv2_error), wd).
Proof.
  intros Hi Bc Hw S. destruct wd as [h ws]. cbn [arrays] in Hi.
  assert (Hc : (0 < cols)%nat) by nia.
  rewrite (show_image_run resize_area title image width h ws rows cols d Hi Hc) by lia.
  destruct (display_height_spec width rows cols Hc ltac:(lia) Hw ltac:(lia)) as (_ & Ch & _).
  rewrite Z.div_small in Ch by nia.
  unfold shown. replace (display_height width rows cols <=? 0) with true; [reflexivity|].
  symmetry. apply Z.leb_le. lia.
Qed.

Lemma show_image_rejects_strip_witness :
  show_image resize_nearest "Target"%string 0%nat 720
    (World [Img8 1 1000 (repeat (bgr 10 20 30) 1000)] [])
  = (Fail (Exn cv2_error), World [Img8 1 1000 (repeat (bgr 10 20 30) 1000)] []).
Proof.
  exact (show_image_rejects_strip resize_nearest "Target"%string 0%nat 720
           (World [Img8 1 1000 (repeat (bgr 10 20 30) 1000)] []) 1%nat 1000%nat
           (repeat (bgr 10 20 30) 1000) eq_refl ltac:(cbn; lia) ltac:(lia) ltac:(cbn; lia)).
Defined.

(** X11.  An image without columns makes [show_image] raise
    [ZeroDivisionError] in its first line, before any OpenCV call:
    nothing is allocated, no window opened. *)
Theorem show_image_no_columns resize_area title image width (wd : world) rows d :
  arrays wd !! image = Some (Img8 rows 0 d) -> 0 < width < 2 ^ 53 ->
  show_image resize_area title image width wd = (Fail ZeroDivisionError, wd).
Proof.
  intros Hi Hw. destruct wd as [h ws]. cbn [arrays] in Hi.
  unfold show_image. unfold bindW at 1. unfold lift, load. cbn [arrays windows]. rewrite Hi.
  unfold bindW at 1. change (py_float (Z.of_nat 0)) with (@retW float64 (S754_zero false)).
  unfold retW at 1. unfold bindW at 1. rewrite (py_float_pos width Hw). unfold retW at 1.
  reflexivity.
Qed.

Lemma show_image_no_columns_witness :
  show_image resize_nearest "Source"%string 0%nat 720 (World [Img8 3 0 []] [])
  = (Fail ZeroDivisionError, World [Img8 3 0 []] []).
Proof.
  exact (show_image_no_columns resize_nearest "Source"%string 0%nat 720
           (World [Img8 3 0 []] []) 3%nat [] eq_refl ltac:(lia)).
Defined.

(** X12.  When the number of columns divides [width], nothing is
    rounded: [show_image] displays the image at [rows * (width / cols)]
    rows and [width] columns; an image that is [width] columns wide
    already is shown at its own size. *)
Theorem show_image_whole_multiple resize_area title image width (wd : world) rows cols d :
  arrays wd !! image = Some (Img8 rows cols d) ->
  (0 < rows)%nat -> (0 < cols)%nat -> 0 < width ->
  width mod Z.of_nat cols = 0 -> Z.of_nat rows * width < 2 ^ 31 ->
  let resized := resized_to resize_area rows cols d width (Z.of_nat rows * (width / Z.of_nat cols)) in
  show_image resize_area title image width wd
  = (Done tt, World (arrays wd ++ [resized]) (put_window title resized (windows wd))).
Proof.
  intros Hi Hr Hc Hw Dv Bn resized. destruct wd as [h ws]. cbn [arrays windows] in *.
  assert (Bw : width < 2 ^ 31) by nia.
  assert (Bc : Z.of_nat cols <= width).
  { apply Z.mod_divide in Dv; [|lia]. apply Z.divide_pos_le in Dv; lia. }
  rewrite (show_image_run resize_area title image width h ws rows cols d Hi Hc) by lia.
  destruct (display_height_spec width rows cols Hc ltac:(lia) ltac:(lia) Bn) as (_ & _ & Ex).
  rewrite (Ex Dv). apply shown_positive.
  assert (1 <= width / Z.of_nat cols) by (apply Z.div_le_lower_bound; lia).
  nia.
Qed.

Lemma show_image_whole_multiple_witness :
  show_image resize_nearest "Transfer"%string 0%nat 720
    (World [Img8 2 360 (repeat (bgr 10 20 30) 720)] [])
  = (Done tt,
     World [Img8 2 360 (repeat (bgr 10 20 30) 720);
            resized_to resize_nearest 2 360 (repeat (bgr 10 20 30) 720) 720 4]
           [("Transfer"%string,
             resized_to resize_nearest 2 360 (repeat (bgr 10 20 30) 720) 720 4)]).
Proof.
  exact (show_image_whole_multiple resize_nearest "Transfer"%string 0%nat 720
           (World [Img8 2 360 (repeat (bgr 10 20 30) 720)] []) 2%nat 360%nat
           (repeat (bgr 10 20 30) 720) eq_refl ltac:(lia) ltac:(lia) ltac:(lia)
           eq_refl ltac:(cbn; lia)).
Defined.


